(** * The game session of [src/game.c]: lifecycle, event handling, frame calls

    A shallow embedding of [game.c].  The session talks to collaborators that
    live in other translation units (player, platforms, camera, SDL, libc, the
    error channel).  Every call that leaves [game.c] is recorded, together with
    the value it returned, in a chronological history; the value returned by a
    non-void collaborator is chosen by an environment that sees the whole
    history so far.  An [assert] that fails, or a read through a pointer that
    holds no string, aborts the run ([None]). *)

From Stdlib Require Import ZArith List String Bool Lia.
Import ListNotations.
Open Scope Z_scope.

(** ** Pointers, enums, events *)

(** Opaque handles ([player_t *], [platforms_t *], [camera_t *], [char *],
    [SDL_Renderer *], [SDL_Joystick *]) are addresses; [NULL] is address 0. *)
Definition ptr := Z.
Definition NULL : ptr := 0.

Inductive game_state_t : Type :=
| GAME_STATE_RUNNING
| GAME_STATE_PAUSE
| GAME_STATE_QUIT
| GAME_STATE_N.

Definition game_state_eqb (a b : game_state_t) : bool :=
  match a, b with
  | GAME_STATE_RUNNING, GAME_STATE_RUNNING => true
  | GAME_STATE_PAUSE, GAME_STATE_PAUSE => true
  | GAME_STATE_QUIT, GAME_STATE_QUIT => true
  | GAME_STATE_N, GAME_STATE_N => true
  | _, _ => false
  end.

Inductive error_type_t : Type :=
| ERROR_TYPE_LIBC
| ERROR_TYPE_SDL2.

(** The part of the [SDL_Event] union that [game.c] inspects: the [type] tag
    and, under it, [key.keysym.sym] or [jbutton.button]. *)
Inductive SDL_Event : Type :=
| SDL_QUIT
| SDL_KEYDOWN (sym : Z)
| SDL_JOYBUTTONDOWN (button : Z)
| SDL_OTHER.

(** SDL2 constants used by [game.c]. *)
Definition SDLK_SPACE : Z := 32.
Definition SDLK_p : Z := 112.
Definition SDLK_q : Z := 113.
Definition SDL_SCANCODE_A : Z := 4.
Definition SDL_SCANCODE_D : Z := 7.

(** The two string literals of [game.c]. *)
Definition fmt_reloading : string :=
  String.append "Reloading the level from '%s'..."
                (String (Ascii.ascii_of_nat 10) EmptyString).
Definition msg_could_not_reload : string := "Could not reload the level".

(** ** Calls that leave [game.c] *)

Inductive call : Type :=
(* the ledger's own storage *)
| lt_alloc
| lt_grow (lt : ptr)
| lt_free (lt : ptr)
(* libc *)
| malloc (size : Z)
| free (p : ptr)
| printf (fmt arg : string)
(* player.h *)
| create_player
| destroy_player (p : ptr)
| render_player (p renderer cam : ptr)
| update_player (p plats : ptr) (delta_time : Z)
| player_focus_camera (p cam : ptr)
| player_jump (p : ptr)
| player_move_left (p : ptr)
| player_move_right (p : ptr)
| player_stop (p : ptr)
(* platforms.h *)
| load_platforms_from_file (path : string)
| destroy_platforms (p : ptr)
| render_platforms (p renderer cam : ptr)
(* camera.h *)
| create_camera
| destroy_camera (p : ptr)
(* error.h *)
| throw_error (e : error_type_t)
| print_current_error_msg (msg : string)
(* SDL2 *)
| SDL_SetRenderDrawColor (renderer : ptr) (r g b a : Z)
| SDL_RenderClear (renderer : ptr)
| SDL_RenderPresent (renderer : ptr)
| SDL_JoystickGetAxis (stick : ptr) (axis : Z).

(** A release operation is a function pointer applied to the handle. *)
Definition lt_destroy_t := ptr -> call.

Definition is_release (c : call) : bool :=
  match c with
  | free _ | destroy_player _ | destroy_platforms _ | destroy_camera _ => true
  | _ => false
  end.

Definition is_movement (c : call) : bool :=
  match c with
  | player_move_left _ | player_move_right _ | player_stop _ => true
  | _ => false
  end.

(** The drawing operations of the backend that can report failure. *)
Definition is_draw (c : call) : bool :=
  match c with
  | SDL_SetRenderDrawColor _ _ _ _ _ | SDL_RenderClear _
  | render_player _ _ _ | render_platforms _ _ _ => true
  | _ => false
  end.

Definition is_present (c : call) : bool :=
  match c with
  | SDL_RenderPresent _ => true
  | _ => false
  end.

(** ** The world: history of calls and the character buffers written so far *)

Definition history := list (call * Z).

Record world : Type := mkWorld {
  hist : history;
  mem : ptr -> option string
}.

Definition mem_store (m : ptr -> option string) (p : ptr) (s : string)
  : ptr -> option string :=
  fun q => if q =? p then Some s else m q.

Definition mem_drop (m : ptr -> option string) (p : ptr)
  : ptr -> option string :=
  fun q => if q =? p then None else m q.

(** [free] ends the life of a buffer; no other call touches the buffers. *)
Definition mem_after (c : call) (m : ptr -> option string)
  : ptr -> option string :=
  match c with
  | free p => mem_drop m p
  | _ => m
  end.

Definition log (w : world) (c : call) (r : Z) : world :=
  {| hist := hist w ++ [(c, r)]; mem := mem_after c (mem w) |}.

(** The path of the most recent [load_platforms_from_file] that returned a
    non-null handle. *)
Fixpoint last_loaded (h : history) (acc : option string) : option string :=
  match h with
  | [] => acc
  | (load_platforms_from_file p, r) :: t =>
      last_loaded t (if r =? NULL then acc else Some p)
  | _ :: t => last_loaded t acc
  end.

(** *** Live allocations

    The collaborators allocate from one heap: a successful allocation returns
    an address that no live object occupies. *)

Definition is_alloc (c : call) : bool :=
  match c with
  | lt_alloc | malloc _ | create_player | create_camera
  | load_platforms_from_file _ => true
  | _ => false
  end.

Definition released (c : call) : option ptr :=
  match c with
  | free p | destroy_player p | destroy_platforms p | destroy_camera p
  | lt_free p => Some p
  | _ => None
  end.

Definition live_step (acc : list ptr) (e : call * Z) : list ptr :=
  let '(c, r) := e in
  if is_alloc c then (if r =? NULL then acc else r :: acc)
  else match released c with
       | Some p => remove Z.eq_dec p acc
       | None => acc
       end.

Definition live (h : history) : list ptr := fold_left live_step h [].

Definition allocator_fresh (env : history -> call -> Z) : Prop :=
  forall h c, is_alloc c = true -> ~ In (env h c) (live h).

(** ** The monad of [game.c]: state over the world, with abort *)

Definition M (A : Type) : Type := world -> option (A * world).

Definition ret {A : Type} (a : A) : M A := fun w => Some (a, w).

Definition bind {A B : Type} (m : M A) (k : A -> M B) : M B :=
  fun w => match m w with
           | Some (a, w') => k a w'
           | None => None
           end.

Notation "x <- m ;; k" := (bind m (fun x => k))
  (at level 61, m at next level, right associativity).
Notation "m ;;; k" := (bind m (fun _ => k))
  (at level 61, right associativity).

Definition assert (b : bool) : M unit :=
  fun w => if b then Some (tt, w) else None.

(** A void call. *)
Definition emit (c : call) : M unit := fun w => Some (tt, log w c 0).

(** [strcpy] into a buffer of this program; its effect is the write. *)
Definition strcpy (dst : ptr) (src : string) : M unit :=
  fun w => Some (tt, {| hist := hist w; mem := mem_store (mem w) dst src |}).

(** Reading the NUL-terminated string behind a [char *]. *)
Definition read_string (p : ptr) : M string :=
  fun w => match mem w p with
           | Some s => Some (s, w)
           | None => None
           end.

Definition nonnull (p : ptr) : bool := negb (p =? NULL).

(** ** The ledger and the session *)

Record lt_t : Type := mkLt {
  lt_addr : ptr;
  frames : list (ptr * lt_destroy_t)   (* oldest registration first *)
}.

Record game_t : Type := mkGame {
  lt : lt_t;
  state : game_state_t;
  player : ptr;
  platforms : ptr;
  camera : ptr;
  level_file_path : ptr
}.

(** Replace the handle of the first frame that holds [old]; the release
    operation of the frame and the position of the frame are kept. *)
Fixpoint reset_frame (fs : list (ptr * lt_destroy_t)) (old new : ptr)
  : option (lt_destroy_t * list (ptr * lt_destroy_t)) :=
  match fs with
  | [] => None
  | (h, d) :: t =>
      if h =? old then Some (d, (new, d) :: t)
      else match reset_frame t old new with
           | Some (d', t') => Some (d', (h, d) :: t')
           | None => None
           end
  end.

(** Run the release operations of the frames, newest first. *)
Fixpoint release_frames (fs : list (ptr * lt_destroy_t)) : M unit :=
  match fs with
  | [] => ret tt
  | (h, d) :: t => release_frames t ;;; emit (d h)
  end.

(** The application loop drives the session; one call of it into the session
    is one of: *)
Inductive frame_call : Type :=
| call_input (keyboard_state : Z -> Z) (the_stick_of_joy : ptr)
| call_event (event : SDL_Event)
| call_update (delta_time : Z)
| call_render (renderer : ptr).

Definition valid_call (c : frame_call) : Prop :=
  match c with
  | call_input _ stick => stick <> NULL
  | call_event _ => True
  | call_update dt => 0 < dt
  | call_render r => r <> NULL
  end.

Section Game.

(** What the collaborators answer: a function of everything that happened so
    far and of the call being made. *)
Variable env : history -> call -> Z.

(** [sizeof(game_t)], fixed by the platform. *)
Variable sizeof_game_t : Z.

Definition answer (w : world) (c : call) : Z := env (hist w) c.

(** A call whose result is used. *)
Definition extern (c : call) : M Z :=
  fun w => Some (answer w c, log w c (answer w c)).

(** *** The ledger *)

(** Modelled from the spec: [lt.h] (the Resource Ledger: [create_lt],
    [PUSH_LT], [RESET_LT], [RETURN_LT], [RETURN_LT0]) is not part of the
    source at hand.  The ledger is created empty; its creation can fail. *)
Definition create_lt : M (option lt_t) :=
  a <- extern lt_alloc ;;
  if a =? NULL then ret None else ret (Some {| lt_addr := a; frames := [] |}).

(** Modelled from the spec: [PUSH_LT] is "register(handle, release) -> handle":
    it returns the handle unchanged, so a null handle (a producer that failed)
    comes back null and is not a registration; it fails only if the ledger
    cannot grow, and then leaves the prior entries untouched. *)
Definition PUSH_LT (l : lt_t) (resource : ptr) (resource_destroy : lt_destroy_t)
  : M (ptr * lt_t) :=
  if resource =? NULL then ret (NULL, l)
  else
    ok <- extern (lt_grow (lt_addr l)) ;;
    if ok =? 0 then ret (NULL, l)
    else ret (resource,
              {| lt_addr := lt_addr l;
                 frames := frames l ++ [(resource, resource_destroy)] |}).

(** Modelled from the spec: [RESET_LT] is "replace": if the producer failed
    (null new handle) the old handle stays registered, nothing is released and
    the failure is signalled (null); otherwise the old handle is released
    through its stored release operation and the slot takes the new handle.
    The spec says nothing about a handle that is not registered: nothing is
    released then. *)
Definition RESET_LT (l : lt_t) (old_resource new_resource : ptr)
  : M (ptr * lt_t) :=
  if new_resource =? NULL then ret (NULL, l)
  else
    match reset_frame (frames l) old_resource new_resource with
    | Some (d, fs) =>
        emit (d old_resource) ;;;
        ret (new_resource, {| lt_addr := lt_addr l; frames := fs |})
    | None => ret (new_resource, l)
    end.

(** Modelled from the spec: "release_all" walks the entries newest to oldest
    and runs each release operation once; the ledger is empty afterwards. *)
Definition release_all (l : lt_t) : M lt_t :=
  release_frames (frames l) ;;;
  ret {| lt_addr := lt_addr l; frames := [] |}.

(** Modelled from the spec: [RETURN_LT(lt, x)] releases the whole ledger and
    the ledger itself, then returns [x]. *)
Definition RETURN_LT {A : Type} (l : lt_t) (x : A) : M A :=
  l' <- release_all l ;;
  emit (lt_free (lt_addr l')) ;;;
  ret x.

Definition RETURN_LT0 (l : lt_t) : M unit := RETURN_LT l tt.

(** Registering a sequence of resources, one [PUSH_LT] after the other. *)
Fixpoint register_all (rs : list (ptr * lt_destroy_t)) (l : lt_t)
  : M (list ptr * lt_t) :=
  match rs with
  | [] => ret ([], l)
  | (h, d) :: rs' =>
      r <- PUSH_LT l h d ;;
      let '(h', l') := r in
      r' <- register_all rs' l' ;;
      let '(hs, l'') := r' in
      ret (h' :: hs, l'')
  end.

(** *** [game.c] *)

(** [level_file_path] is a non-null pointer to a NUL-terminated string
    ([assert(level_file_path)]); it is passed here as the string it holds. *)
Definition create_game (level_file_path : string) : M (option game_t) :=
  olt <- create_lt ;;
  match olt with
  | None => ret None
  | Some lt0 =>
      m <- extern (malloc sizeof_game_t) ;;
      r1 <- PUSH_LT lt0 m free ;;
      let '(game, lt1) := r1 in
      if game =? NULL then
        emit (throw_error ERROR_TYPE_LIBC) ;;; RETURN_LT lt1 None
      else
        p <- extern create_player ;;
        r2 <- PUSH_LT lt1 p destroy_player ;;
        let '(game_player, lt2) := r2 in
        if game_player =? NULL then RETURN_LT lt2 None
        else
          q <- extern (load_platforms_from_file level_file_path) ;;
          r3 <- PUSH_LT lt2 q destroy_platforms ;;
          let '(game_platforms, lt3) := r3 in
          if game_platforms =? NULL then RETURN_LT lt3 None
          else
            c <- extern create_camera ;;
            r4 <- PUSH_LT lt3 c destroy_camera ;;
            let '(game_camera, lt4) := r4 in
            if game_camera =? NULL then RETURN_LT lt4 None
            else
              b <- extern (malloc (1 * (Z.of_nat (String.length level_file_path) + 1))) ;;
              r5 <- PUSH_LT lt4 b free ;;
              let '(game_level_file_path, lt5) := r5 in
              if game_level_file_path =? NULL then
                emit (throw_error ERROR_TYPE_LIBC) ;;; RETURN_LT lt5 None
              else
                strcpy game_level_file_path level_file_path ;;;
                ret (Some {| lt := lt5;
                             state := GAME_STATE_RUNNING;
                             player := game_player;
                             platforms := game_platforms;
                             camera := game_camera;
                             level_file_path := game_level_file_path |})
  end.

Definition destroy_game (game : game_t) : M unit :=
  RETURN_LT0 (lt game).

(** [game] is [const] here: the session is read, never written. *)
Definition game_render (game : game_t) (renderer : ptr) : M Z :=
  assert (nonnull renderer) ;;;
  if game_state_eqb (state game) GAME_STATE_QUIT then ret 0
  else
    r1 <- extern (SDL_SetRenderDrawColor renderer 0 0 0 255) ;;
    if r1 <? 0 then emit (throw_error ERROR_TYPE_SDL2) ;;; ret (-1)
    else
      r2 <- extern (SDL_RenderClear renderer) ;;
      if r2 <? 0 then emit (throw_error ERROR_TYPE_SDL2) ;;; ret (-1)
      else
        r3 <- extern (render_player (player game) renderer (camera game)) ;;
        if r3 <? 0 then ret (-1)
        else
          r4 <- extern (render_platforms (platforms game) renderer (camera game)) ;;
          if r4 <? 0 then ret (-1)
          else
            emit (SDL_RenderPresent renderer) ;;;
            ret 0.

(** No field of the session is assigned by [game_update]. *)
Definition game_update (game : game_t) (delta_time : Z) : M Z :=
  assert (0 <? delta_time) ;;;
  if game_state_eqb (state game) GAME_STATE_QUIT then ret 0
  else
    (if game_state_eqb (state game) GAME_STATE_RUNNING then
       emit (update_player (player game) (platforms game) delta_time) ;;;
       emit (player_focus_camera (player game) (camera game))
     else ret tt) ;;;
    ret 0.

Definition set_state (game : game_t) (s : game_state_t) : game_t :=
  {| lt := lt game; state := s; player := player game;
     platforms := platforms game; camera := camera game;
     level_file_path := level_file_path game |}.

Definition set_platforms (game : game_t) (l : lt_t) (p : ptr) : game_t :=
  {| lt := l; state := state game; player := player game;
     platforms := p; camera := camera game;
     level_file_path := level_file_path game |}.

Definition game_event_pause (game : game_t) (event : SDL_Event)
  : M (Z * game_t) :=
  match event with
  | SDL_QUIT => ret (0, set_state game GAME_STATE_QUIT)
  | SDL_KEYDOWN sym =>
      if sym =? SDLK_p then ret (0, set_state game GAME_STATE_RUNNING)
      else ret (0, game)
  | _ => ret (0, game)
  end.

Definition game_event_running (game : game_t) (event : SDL_Event)
  : M (Z * game_t) :=
  match event with
  | SDL_QUIT => ret (0, set_state game GAME_STATE_QUIT)
  | SDL_KEYDOWN sym =>
      if sym =? SDLK_SPACE then
        emit (player_jump (player game)) ;;; ret (0, game)
      else if sym =? SDLK_q then
        path <- read_string (level_file_path game) ;;
        emit (printf fmt_reloading path) ;;;
        new <- extern (load_platforms_from_file path) ;;
        r <- RESET_LT (lt game) (platforms game) new ;;
        let '(game_platforms, lt') := r in
        let game' := set_platforms game lt' game_platforms in
        if game_platforms =? NULL then
          emit (print_current_error_msg msg_could_not_reload) ;;;
          ret (-1, set_state game' GAME_STATE_QUIT)
        else ret (0, game')
      else if sym =? SDLK_p then ret (0, set_state game GAME_STATE_PAUSE)
      else ret (0, game)
  | SDL_JOYBUTTONDOWN button =>
      if button =? 1 then
        emit (player_jump (player game)) ;;; ret (0, game)
      else ret (0, game)
  | SDL_OTHER => ret (0, game)
  end.

Definition game_event (game : game_t) (event : SDL_Event) : M (Z * game_t) :=
  match state game with
  | GAME_STATE_RUNNING => game_event_running game event
  | GAME_STATE_PAUSE => game_event_pause game event
  | _ => ret (0, game)
  end.

(** No field of the session is assigned by [game_input]. *)
Definition game_input (game : game_t) (keyboard_state : Z -> Z)
           (the_stick_of_joy : ptr) : M Z :=
  assert (nonnull the_stick_of_joy) ;;;
  if game_state_eqb (state game) GAME_STATE_QUIT
     || game_state_eqb (state game) GAME_STATE_PAUSE
  then ret 0
  else
    (if negb (keyboard_state SDL_SCANCODE_A =? 0) then
       emit (player_move_left (player game))
     else if negb (keyboard_state SDL_SCANCODE_D =? 0) then
       emit (player_move_right (player game))
     else
       neg <- (if nonnull the_stick_of_joy then
                 a <- extern (SDL_JoystickGetAxis the_stick_of_joy 0) ;;
                 ret (a <? 0)
               else ret false) ;;
       if neg then emit (player_move_left (player game))
       else
         pos <- (if nonnull the_stick_of_joy then
                   a <- extern (SDL_JoystickGetAxis the_stick_of_joy 0) ;;
                   ret (0 <? a)
                 else ret false) ;;
         if pos then emit (player_move_right (player game))
         else emit (player_stop (player game))) ;;;
    ret 0.

Definition is_game_over (game : game_t) : Z :=
  if game_state_eqb (state game) GAME_STATE_QUIT then 1 else 0.

(** *** The calls of the loop, one after the other *)

Definition step (c : frame_call) (game : game_t) : M (Z * game_t) :=
  match c with
  | call_input kb stick => r <- game_input game kb stick ;; ret (r, game)
  | call_event e => game_event game e
  | call_update dt => r <- game_update game dt ;; ret (r, game)
  | call_render rd => r <- game_render game rd ;; ret (r, game)
  end.

Fixpoint run (cs : list frame_call) (game : game_t) : M (list Z * game_t) :=
  match cs with
  | [] => ret ([], game)
  | c :: cs' =>
      r <- step c game ;;
      let '(z, game') := r in
      r' <- run cs' game' ;;
      let '(zs, game'') := r' in
      ret (z :: zs, game'')
  end.

End Game.

(** ** Vocabulary of the properties *)

(** The world after a list of void calls. *)
Definition logs (w : world) (cs : list call) : world :=
  fold_left (fun w' c => log w' c 0) cs w.

(** The call that releases a frame of the ledger. *)
Definition release_call (f : ptr * lt_destroy_t) : call := snd f (fst f).

(** The release operations that [game.c] registers. *)
Definition known_destroy (d : lt_destroy_t) : Prop :=
  d = free \/ d = destroy_player \/ d = destroy_platforms \/
  d = destroy_camera.

(** A call that neither allocates nor releases. *)
Definition neutral (c : call) : bool :=
  negb (is_alloc c) &&
  match released c with
  | Some _ => false
  | None => true
  end.

(** A computation that always returns, leaves the buffers alone and makes
    only neutral calls. *)
Definition quiet {A : Type} (m : M A) : Prop :=
  forall w, exists a w' evs,
    m w = Some (a, w') /\
    hist w' = hist w ++ evs /\
    mem w' = mem w /\
    Forall (fun e => neutral (fst e) = true) evs.

(** What holds of a session between two calls of the loop; [path] is the
    path the session was constructed with. *)
Definition session_inv (path : string) (g : game_t) (w : world) : Prop :=
  player g <> NULL /\
  camera g <> NULL /\
  level_file_path g <> NULL /\
  (state g <> GAME_STATE_QUIT -> platforms g <> NULL) /\
  platforms g <> level_file_path g /\
  In (level_file_path g) (live (hist w)) /\
  mem w (level_file_path g) = Some path /\
  last_loaded (hist w) None = Some path /\
  Forall (fun f => known_destroy (snd f)) (frames (lt g)).

(** The two drawing operations that belong to SDL itself; [game.c] records
    their failure on the error channel. *)
Definition is_sdl_draw (c : call) : bool :=
  match c with
  | SDL_SetRenderDrawColor _ _ _ _ _ | SDL_RenderClear _ => true
  | _ => false
  end.

(** The heap objects a call is handed.  The renderer and the joystick belong
    to the caller and are not followed. *)
Definition uses (c : call) : list ptr :=
  match c with
  | lt_grow l | lt_free l => [l]
  | free p | destroy_player p | destroy_platforms p | destroy_camera p => [p]
  | render_player p _ cam => [p; cam]
  | update_player p plats _ => [p; plats]
  | player_focus_camera p cam => [p; cam]
  | player_jump p | player_move_left p | player_move_right p
  | player_stop p => [p]
  | render_platforms p _ cam => [p; cam]
  | _ => []
  end.

(** Every call of [evs] is handed live objects only, [acc] being the live
    objects before the first call.  A null or released handle is not live, so
    this rules out a null argument, a use after release and a second
    release. *)
Fixpoint safe_from (acc : list ptr) (evs : history) : Prop :=
  match evs with
  | [] => True
  | e :: t =>
      (forall p, In p (uses (fst e)) -> In p acc) /\
      safe_from (live_step acc e) t
  end.

(** From [w] to [w'] the history only grew, by calls on live objects. *)
Definition safe_between (w w' : world) : Prop :=
  exists evs, hist w' = hist w ++ evs /\ safe_from (live (hist w)) evs.

(** A computation that always returns, leaves the buffers alone and makes
    only neutral calls, on objects of [P]. *)
Definition tame (P : list ptr) {A : Type} (m : M A) : Prop :=
  forall w, exists a w' evs,
    m w = Some (a, w') /\
    hist w' = hist w ++ evs /\
    mem w' = mem w /\
    Forall (fun e => neutral (fst e) = true /\ incl (uses (fst e)) P) evs.

(** The ledger owns what this session allocated: the ledger block and the
    registered handles are pairwise distinct, they are exactly the live
    objects that were not live in [L0] (the objects live before the session),
    and every registered release operation is one of [game.c]'s. *)
Definition ledger_inv (L0 : list ptr) (l : lt_t) (w : world) : Prop :=
  NoDup (lt_addr l :: map fst (frames l)) /\
  (forall x, In x (live (hist w)) <->
             In x (lt_addr l :: map fst (frames l)) \/ In x L0) /\
  (forall x, In x (lt_addr l :: map fst (frames l)) -> ~ In x L0) /\
  Forall (fun f => known_destroy (snd f)) (frames l).

(** The session between two calls of the loop, with its ledger: the five
    registrations in order, the geometry handle of the session being the
    registered one unless the session is over. *)
Definition lifetime_inv (path : string) (L0 : list ptr) (g : game_t) (w : world)
  : Prop :=
  ledger_inv L0 (lt g) w /\
  (exists gp X,
      frames (lt g) = [(gp, free); (player g, destroy_player);
                       (X, destroy_platforms); (camera g, destroy_camera);
                       (level_file_path g, free)] /\
      (state g <> GAME_STATE_QUIT -> platforms g = X)) /\
  mem w (level_file_path g) = Some path.

(** What holds of the handles of a session whatever the allocator does: the
    path buffer, as long as it is not released, holds the construction
    path. *)
Definition handles_inv (path : string) (g : game_t) (w : world) : Prop :=
  player g <> NULL /\
  camera g <> NULL /\
  level_file_path g <> NULL /\
  (mem w (level_file_path g) = Some path \/
   mem w (level_file_path g) = None) /\
  Forall (fun f => known_destroy (snd f)) (frames (lt g)) /\
  (platforms g = NULL -> state g = GAME_STATE_QUIT).

(** How calls of the loop act on the geometry handle, from [(g, w)] to
    [(g', w')]: a load that fails nulls it, ends the session and is reported
    ([failed]); nothing else nulls it; once null it stays null. *)
Definition geometry_effect (path : string) (failed : Prop)
           (g : game_t) (w : world) (g' : game_t) (w' : world) : Prop :=
  exists evs,
    hist w' = hist w ++ evs /\
    (In (load_platforms_from_file path, NULL) evs ->
     platforms g' = NULL /\ failed /\ state g' = GAME_STATE_QUIT) /\
    (platforms g' = NULL ->
     platforms g = NULL \/ In (load_platforms_from_file path, NULL) evs) /\
    (platforms g = NULL -> platforms g' = NULL).

(** ** Concrete environments, used to run the session on examples *)

(** An address above every value recorded in the history. *)
Definition fresh_addr (h : history) : Z :=
  1 + fold_right Z.max 1000 (map snd h).

(** Every collaborator succeeds: allocations return a fresh address,
    the joystick axis is centred, everything else returns 1. *)
Definition env_ok : history -> call -> Z :=
  fun h c =>
    match c with
    | lt_alloc | malloc _ | create_player | create_camera
    | load_platforms_from_file _ => fresh_addr h
    | SDL_JoystickGetAxis _ _ => 0
    | _ => 1
    end.

(** As [env_ok], but a level file can be loaded only once: every later load
    fails. *)
Definition env_reload_fails : history -> call -> Z :=
  fun h c =>
    match c with
    | load_platforms_from_file _ =>
        match last_loaded h None with
        | None => fresh_addr h
        | Some _ => NULL
        end
    | _ => env_ok h c
    end.

(** As [env_ok], but no level file can be loaded. *)
Definition env_no_level : history -> call -> Z :=
  fun h c =>
    match c with
    | load_platforms_from_file _ => NULL
    | _ => env_ok h c
    end.

(** As [env_ok], but clearing the renderer fails. *)
Definition env_clear_fails : history -> call -> Z :=
  fun h c =>
    match c with
    | SDL_RenderClear _ => -1
    | _ => env_ok h c
    end.

Definition world0 : world := {| hist := []; mem := fun _ => None |}.

Definition keys_none : Z -> Z := fun _ => 0.
Definition keys_A_and_D : Z -> Z :=
  fun k => if (k =? SDL_SCANCODE_A) || (k =? SDL_SCANCODE_D) then 1 else 0.

(** The session that [create_game] returns under [env_ok] from [world0], and
    the world it leaves. *)
Definition game0 : game_t :=
  {| lt := {| lt_addr := 1001;
              frames := [(1002, free); (1003, destroy_player);
                         (1004, destroy_platforms); (1005, destroy_camera);
                         (1006, free)] |};
     state := GAME_STATE_RUNNING;
     player := 1003; platforms := 1004; camera := 1005;
     level_file_path := 1006 |}.

Definition world1 : world :=
  {| hist := [(lt_alloc, 1001); (malloc 64, 1002); (lt_grow 1001, 1);
              (create_player, 1003); (lt_grow 1001, 1);
              (load_platforms_from_file "lvl", 1004); (lt_grow 1001, 1);
              (create_camera, 1005); (lt_grow 1001, 1);
              (malloc 4, 1006); (lt_grow 1001, 1)];
     mem := mem_store (fun _ => None) 1006 "lvl" |}.

(** Every call, whatever it is, answers a fresh address (never 0). *)
Definition env_all_fresh : history -> call -> Z :=
  fun h _ => fresh_addr h.

Definition is_axis_read (c : call) : bool :=
  match c with
  | SDL_JoystickGetAxis _ _ => true
  | _ => false
  end.

(** * Properties *)

Ltac munfold :=
  unfold bind, ret, emit, extern, assert, strcpy, read_string in *.

Lemma game_state_eqb_eq (a b : game_state_t) :
  game_state_eqb a b = true <-> a = b.
Proof. destruct a, b; simpl; split; congruence. Qed.

Lemma is_game_over_quit (g : game_t) :
  is_game_over g = 1 <-> state g = GAME_STATE_QUIT.
Proof.
  unfold is_game_over. destruct (state g); simpl; split;
    congruence || discriminate.
Qed.

Lemma nonnull_true (p : ptr) : p <> NULL -> nonnull p = true.
Proof.
  intros H. unfold nonnull. apply negb_true_iff. apply Z.eqb_neq. exact H.
Qed.

Lemma logs_app (w : world) (xs ys : list call) :
  logs w (xs ++ ys) = logs (logs w xs) ys.
Proof. unfold logs. apply fold_left_app. Qed.

Lemma hist_logs (cs : list call) : forall w,
  hist (logs w cs) = hist w ++ map (fun c => (c, 0)) cs.
Proof.
  induction cs as [|c cs IH]; intros w; simpl.
  - now rewrite app_nil_r.
  - rewrite IH. simpl. now rewrite <- app_assoc.
Qed.

Lemma release_frames_logs (fs : list (ptr * lt_destroy_t)) : forall w,
  release_frames fs w = Some (tt, logs w (map release_call (rev fs))).
Proof.
  induction fs as [|[h d] fs IH]; intros w; simpl.
  - reflexivity.
  - unfold bind. rewrite IH. unfold emit.
    rewrite map_app, logs_app. reflexivity.
Qed.

Section Properties.

Variable env : history -> call -> Z.
Variable sizeof_game_t : Z.

Lemma RETURN_LT_logs {A : Type} (l : lt_t) (x : A) (w : world) :
  RETURN_LT l x w =
  Some (x, logs w (map release_call (rev (frames l)) ++ [lt_free (lt_addr l)])).
Proof.
  unfold RETURN_LT, release_all, bind. rewrite release_frames_logs.
  unfold ret, emit. simpl. rewrite logs_app. reflexivity.
Qed.

(** C10: in the Running state a key press that is none of jump (space),
    reload (q), pause (p), and a controller button other than button 1, is
    ignored: session and world are left as they were (so state, player and
    every handle are unchanged) and [game_event] returns 0. *)
Theorem unbound_input_ignored (g : game_t) (e : SDL_Event) (w : world) :
  state g = GAME_STATE_RUNNING ->
  (exists k, e = SDL_KEYDOWN k /\
             k <> SDLK_SPACE /\ k <> SDLK_q /\ k <> SDLK_p) \/
  (exists b, e = SDL_JOYBUTTONDOWN b /\ b <> 1) ->
  game_event env g e w = Some ((0, g), w).
Proof.
  intros Hs [[k [-> [H1 [H2 H3]]]] | [b [-> Hb]]];
    unfold game_event; rewrite Hs; simpl.
  - apply Z.eqb_neq in H1, H2, H3. rewrite H1, H2, H3. reflexivity.
  - apply Z.eqb_neq in Hb. rewrite Hb. reflexivity.
Qed.

(** C7: while Paused, [game_update] with a positive elapsed time makes no
    call at all (neither [update_player] nor [player_focus_camera]), leaves
    the world and the session as they were, and returns 0. *)
Theorem pause_suppresses_update (g : game_t) (dt : Z) (w : world) :
  state g = GAME_STATE_PAUSE ->
  0 < dt ->
  game_update g dt w = Some (0, w) /\
  step env (call_update dt) g w = Some ((0, g), w).
Proof.
  intros Hs Hdt.
  assert (E : game_update g dt w = Some (0, w)).
  { unfold game_update. munfold. apply Z.ltb_lt in Hdt. rewrite Hdt, Hs.
    reflexivity. }
  split; [exact E|]. simpl. unfold bind. rewrite E. reflexivity.
Qed.

Lemma step_quit (c : frame_call) (g : game_t) (w : world) :
  state g = GAME_STATE_QUIT ->
  valid_call c ->
  step env c g w = Some ((0, g), w).
Proof.
  intros Hs Hv. destruct c as [kb stick | e | dt | rd]; simpl in *.
  - unfold game_input. munfold. rewrite (nonnull_true _ Hv), Hs. reflexivity.
  - unfold game_event. rewrite Hs. reflexivity.
  - unfold game_update. munfold. apply Z.ltb_lt in Hv. rewrite Hv, Hs.
    reflexivity.
  - unfold game_render. munfold. rewrite (nonnull_true _ Hv), Hs. reflexivity.
Qed.

(** C5: once the state is Terminated ([GAME_STATE_QUIT]), any sequence of
    input, event, update and render calls (with arguments that pass the
    asserts) returns 0 every time and leaves the session and the world exactly
    as they were: the state stays Terminated, and no call is made to the
    player or to the renderer. *)
Theorem terminated_is_absorbing (cs : list frame_call) (g : game_t) (w : world) :
  state g = GAME_STATE_QUIT ->
  Forall valid_call cs ->
  run env cs g w = Some ((repeat 0 (List.length cs), g), w).
Proof.
  intros Hs Hv. induction Hv as [|c cs Hc _ IH]; simpl.
  - reflexivity.
  - unfold bind. rewrite (step_quit c g w Hs Hc). rewrite IH. reflexivity.
Qed.

(** C6: in the Running state one call of [game_input] issues exactly one of
    move-left, move-right, stop to the player, chosen in this order: key A
    held, then key D held, then a negative reading of axis 0, then a positive
    reading of axis 0 (the axis is read again for this test), else stop.  In
    particular with A and D both held the command is move-left. *)
Theorem input_precedence (g : game_t) (kb : Z -> Z) (stick : ptr) (w : world) :
  state g = GAME_STATE_RUNNING ->
  stick <> NULL ->
  let axis := SDL_JoystickGetAxis stick 0 in
  let a1 := answer env w axis in
  let a2 := answer env (log w axis a1) axis in
  exists w' evs c,
    game_input env g kb stick w = Some (0, w') /\
    hist w' = hist w ++ evs /\
    mem w' = mem w /\
    filter is_movement (map fst evs) = [c] /\
    (kb SDL_SCANCODE_A <> 0 -> c = player_move_left (player g)) /\
    (kb SDL_SCANCODE_A = 0 -> kb SDL_SCANCODE_D <> 0 ->
     c = player_move_right (player g)) /\
    (kb SDL_SCANCODE_A = 0 -> kb SDL_SCANCODE_D = 0 -> a1 < 0 ->
     c = player_move_left (player g)) /\
    (kb SDL_SCANCODE_A = 0 -> kb SDL_SCANCODE_D = 0 -> 0 <= a1 -> 0 < a2 ->
     c = player_move_right (player g)) /\
    (kb SDL_SCANCODE_A = 0 -> kb SDL_SCANCODE_D = 0 -> 0 <= a1 -> a2 <= 0 ->
     c = player_stop (player g)).
Proof.
  intros Hs Hn axis a1 a2.
  unfold game_input. munfold. rewrite (nonnull_true _ Hn), Hs. simpl.
  destruct (kb SDL_SCANCODE_A =? 0) eqn:EA; simpl.
  2:{ apply Z.eqb_neq in EA.
      eexists; exists [(player_move_left (player g), 0)]; eexists.
      split; [reflexivity|]. simpl.
      repeat split; try reflexivity; intros; congruence. }
  apply Z.eqb_eq in EA.
  destruct (kb SDL_SCANCODE_D =? 0) eqn:ED; simpl.
  2:{ apply Z.eqb_neq in ED.
      eexists; exists [(player_move_right (player g), 0)]; eexists.
      split; [reflexivity|]. simpl.
      repeat split; try reflexivity; intros; congruence. }
  apply Z.eqb_eq in ED.
  fold axis. fold a1.
  destruct (a1 <? 0) eqn:E1.
  { apply Z.ltb_lt in E1.
    eexists; exists [(axis, a1); (player_move_left (player g), 0)]; eexists.
    split; [reflexivity|]. simpl. rewrite <- app_assoc. simpl.
    repeat split; try reflexivity; intros; lia. }
  apply Z.ltb_ge in E1.
  change (answer env (log w axis a1) axis) with a2.
  destruct (0 <? a2) eqn:E2.
  { apply Z.ltb_lt in E2.
    eexists;
      exists [(axis, a1); (axis, a2); (player_move_right (player g), 0)];
      eexists.
    split; [reflexivity|]. simpl. rewrite <- !app_assoc. simpl.
    repeat split; try reflexivity; intros; lia. }
  apply Z.ltb_ge in E2.
  eexists; exists [(axis, a1); (axis, a2); (player_stop (player g), 0)];
    eexists.
  split; [reflexivity|]. simpl. rewrite <- !app_assoc. simpl.
  repeat split; try reflexivity; intros; lia.
Qed.

(** C8: on a session that is not Terminated, if any drawing operation of
    the backend fails (draw colour, clear, player draw, platforms draw: the
    answer of the backend is negative), [game_render] returns -1, the session
    is not written, and the frame is abandoned at the first failing call:
    every call before it succeeded, nothing follows it but the error record
    for SDL's own calls, and [SDL_RenderPresent] is not called. *)
Theorem render_failure_aborts (g : game_t) (rd : ptr) (w : world) :
  state g <> GAME_STATE_QUIT ->
  rd <> NULL ->
  let c1 := SDL_SetRenderDrawColor rd 0 0 0 255 in
  let c2 := SDL_RenderClear rd in
  let c3 := render_player (player g) rd (camera g) in
  let c4 := render_platforms (platforms g) rd (camera g) in
  let r1 := answer env w c1 in
  let w1 := log w c1 r1 in
  let r2 := answer env w1 c2 in
  let w2 := log w1 c2 r2 in
  let r3 := answer env w2 c3 in
  let w3 := log w2 c3 r3 in
  let r4 := answer env w3 c4 in
  r1 < 0 \/ r2 < 0 \/ r3 < 0 \/ r4 < 0 ->
  exists w' pre c z,
    game_render env g rd w = Some (-1, w') /\
    step env (call_render rd) g w = Some ((-1, g), w') /\
    hist w' = hist w ++ pre ++ (c, z) ::
                   (if is_sdl_draw c
                    then [(throw_error ERROR_TYPE_SDL2, 0)] else []) /\
    mem w' = mem w /\
    is_draw c = true /\ z < 0 /\
    Forall (fun e => is_draw (fst e) = true /\ 0 <= snd e) pre /\
    (forall c' z', In (c', z') (hist w') -> ~ In (c', z') (hist w) ->
                   is_present c' = false).
Proof.
  intros Hs Hn. cbv zeta. intros Hfail.
  assert (Eq : game_state_eqb (state g) GAME_STATE_QUIT = false).
  { destruct (game_state_eqb (state g) GAME_STATE_QUIT) eqn:E; [|reflexivity].
    apply game_state_eqb_eq in E. contradiction. }
  assert (tail : forall (pre : history) (c : call) (z : Z) (w' : world),
             hist w' = hist w ++ pre ++ (c, z) ::
                            (if is_sdl_draw c
                             then [(throw_error ERROR_TYPE_SDL2, 0)] else []) ->
             mem w' = mem w ->
             is_draw c = true -> z < 0 ->
             Forall (fun e => is_draw (fst e) = true /\ 0 <= snd e) pre ->
             hist w' = hist w ++ pre ++ (c, z) ::
                            (if is_sdl_draw c
                             then [(throw_error ERROR_TYPE_SDL2, 0)] else []) /\
             mem w' = mem w /\
             is_draw c = true /\ z < 0 /\
             Forall (fun e => is_draw (fst e) = true /\ 0 <= snd e) pre /\
             (forall c0 z0, In (c0, z0) (hist w') ->
                            ~ In (c0, z0) (hist w) ->
                            is_present c0 = false)).
  { intros pre c z w' Hh Hm Hc Hz Hpre.
    split; [exact Hh|]. split; [exact Hm|]. split; [exact Hc|].
    split; [exact Hz|]. split; [exact Hpre|].
    intros c0 z0 HIn Hnot. rewrite Hh in HIn.
    apply in_app_or in HIn. destruct HIn as [HIn | HIn]; [contradiction|].
    apply in_app_or in HIn. destruct HIn as [HIn | HIn].
    - rewrite Forall_forall in Hpre. apply Hpre in HIn. simpl in HIn.
      destruct HIn as [HIn _]. destruct c0; try discriminate; reflexivity.
    - destruct HIn as [HIn | HIn].
      + injection HIn as <- _. destruct c; try discriminate; reflexivity.
      + destruct (is_sdl_draw c); [|contradiction].
        destruct HIn as [HIn | []]. injection HIn as <- _. reflexivity. }
  cbn [step]. unfold game_render. munfold. rewrite (nonnull_true _ Hn), Eq.
  set (c1 := SDL_SetRenderDrawColor rd 0 0 0 255) in *.
  set (c2 := SDL_RenderClear rd) in *.
  set (c3 := render_player (player g) rd (camera g)) in *.
  set (c4 := render_platforms (platforms g) rd (camera g)) in *.
  set (r1 := answer env w c1) in *.
  set (w1 := log w c1 r1) in *.
  set (r2 := answer env w1 c2) in *.
  set (w2 := log w1 c2 r2) in *.
  set (r3 := answer env w2 c3) in *.
  set (w3 := log w2 c3 r3) in *.
  set (r4 := answer env w3 c4) in *.
  destruct (r1 <? 0) eqn:E1.
  { apply Z.ltb_lt in E1.
    exists (log w1 (throw_error ERROR_TYPE_SDL2) 0), [], c1, r1.
    split; [reflexivity|]. split; [reflexivity|].
    apply tail; [simpl; now rewrite <- !app_assoc|reflexivity|reflexivity
                |exact E1|constructor]. }
  apply Z.ltb_ge in E1.
  cbv beta iota.
  change (answer env w1 c2) with r2.
  destruct (r2 <? 0) eqn:E2.
  { apply Z.ltb_lt in E2.
    exists (log w2 (throw_error ERROR_TYPE_SDL2) 0), [(c1, r1)], c2, r2.
    split; [reflexivity|]. split; [reflexivity|].
    apply tail; [simpl; now rewrite <- !app_assoc|reflexivity|reflexivity
                |exact E2|repeat constructor; exact E1]. }
  apply Z.ltb_ge in E2.
  cbv beta iota. change (log w1 c2 r2) with w2.
  change (answer env w2 c3) with r3.
  destruct (r3 <? 0) eqn:E3.
  { apply Z.ltb_lt in E3.
    exists w3, [(c1, r1); (c2, r2)], c3, r3.
    split; [reflexivity|]. split; [reflexivity|].
    apply tail; [simpl; now rewrite <- !app_assoc|reflexivity|reflexivity
                |exact E3|repeat constructor; assumption]. }
  apply Z.ltb_ge in E3.
  cbv beta iota. change (log w2 c3 r3) with w3.
  change (answer env w3 c4) with r4.
  destruct (r4 <? 0) eqn:E4.
  { apply Z.ltb_lt in E4.
    exists (log w3 c4 r4), [(c1, r1); (c2, r2); (c3, r3)], c4, r4.
    split; [reflexivity|]. split; [reflexivity|].
    apply tail; [simpl; now rewrite <- !app_assoc|reflexivity|reflexivity
                |exact E4|repeat constructor; assumption]. }
  apply Z.ltb_ge in E4. exfalso. lia.
Qed.

(** *** Reloading the level *)

(** What a reload does, step by step, when the path buffer can be read. *)
Lemma game_event_reload (g : game_t) (w : world) (path : string) :
  state g = GAME_STATE_RUNNING ->
  mem w (level_file_path g) = Some path ->
  let w1 := log w (printf fmt_reloading path) 0 in
  let new := answer env w1 (load_platforms_from_file path) in
  let w2 := log w1 (load_platforms_from_file path) new in
  game_event env g (SDL_KEYDOWN SDLK_q) w =
  if new =? NULL then
    Some ((-1, set_state (set_platforms g (lt g) NULL) GAME_STATE_QUIT),
          log w2 (print_current_error_msg msg_could_not_reload) 0)
  else
    match reset_frame (frames (lt g)) (platforms g) new with
    | Some (d, fs) =>
        Some ((0, set_platforms g {| lt_addr := lt_addr (lt g); frames := fs |} new),
              log w2 (d (platforms g)) 0)
    | None => Some ((0, set_platforms g (lt g) new), w2)
    end.
Proof.
  intros Hs Hm w1 new w2.
  unfold game_event. rewrite Hs. unfold game_event_running.
  change (SDLK_q =? SDLK_SPACE) with false.
  change (SDLK_q =? SDLK_q) with true. cbv iota.
  unfold bind at 1. unfold read_string. rewrite Hm.
  unfold bind at 1. unfold emit at 1. fold w1.
  unfold bind at 1. unfold extern. fold new. fold w2.
  unfold bind at 1. unfold RESET_LT.
  destruct (new =? NULL) eqn:En.
  - unfold ret at 1. change (NULL =? NULL) with true. cbv iota.
    unfold bind, emit, ret. reflexivity.
  - destruct (reset_frame (frames (lt g)) (platforms g) new) as [[d fs]|].
    + unfold bind, emit, ret. rewrite En. reflexivity.
    + unfold ret. rewrite En. reflexivity.
Qed.

(** C2: in the Running state, when the loader called for a reload fails,
    [RESET_LT] hands the ledger back as it was, [game_event] returns, the
    ledger of the session is the ledger it had (the old geometry handle is
    still registered, with its release operation), the buffers are untouched
    and no release operation is called. *)
Theorem failed_reload_keeps_ledger (g : game_t) (w : world) (path : string) :
  state g = GAME_STATE_RUNNING ->
  mem w (level_file_path g) = Some path ->
  answer env (log w (printf fmt_reloading path) 0)
         (load_platforms_from_file path) = NULL ->
  RESET_LT (lt g) (platforms g) NULL w = Some ((NULL, lt g), w) /\
  exists r g' w' evs,
    game_event env g (SDL_KEYDOWN SDLK_q) w = Some ((r, g'), w') /\
    lt g' = lt g /\
    (forall d, In (platforms g, d) (frames (lt g)) ->
               In (platforms g, d) (frames (lt g'))) /\
    hist w' = hist w ++ evs /\
    mem w' = mem w /\
    filter is_release (map fst evs) = [].
Proof.
  intros Hs Hm Ha. split; [reflexivity|].
  rewrite (game_event_reload g w path Hs Hm). cbv zeta. rewrite Ha.
  change (NULL =? NULL) with true. cbv iota.
  do 3 eexists.
  exists [(printf fmt_reloading path, 0);
          (load_platforms_from_file path, NULL);
          (print_current_error_msg msg_could_not_reload, 0)].
  split; [reflexivity|]. simpl.
  repeat split; try reflexivity.
  - intros d Hd. exact Hd.
  - now rewrite <- !app_assoc.
Qed.

(** C3: on a session whose path buffer can be read, [game_event] returns 0
    or -1.  When the state is Running, the event is the reload key and the
    loader fails, the state becomes Terminated, the error message is printed
    and the result is -1; and a result other than 0 arises in no other way. *)
Theorem reload_failure_is_the_only_error
        (g : game_t) (e : SDL_Event) (w : world) (path : string) :
  mem w (level_file_path g) = Some path ->
  let reload_failed :=
    state g = GAME_STATE_RUNNING /\ e = SDL_KEYDOWN SDLK_q /\
    answer env (log w (printf fmt_reloading path) 0)
           (load_platforms_from_file path) = NULL in
  exists r g' w',
    game_event env g e w = Some ((r, g'), w') /\
    (r = 0 \/ r = -1) /\
    (reload_failed ->
     r = -1 /\ state g' = GAME_STATE_QUIT /\
     hist w' = hist w ++ [(printf fmt_reloading path, 0);
                          (load_platforms_from_file path, NULL);
                          (print_current_error_msg msg_could_not_reload, 0)]) /\
    (r <> 0 -> reload_failed).
Proof.
  intros Hm reload_failed. subst reload_failed.
  assert (quiet : forall g' w',
             game_event env g e w = Some ((0, g'), w') ->
             ~ (state g = GAME_STATE_RUNNING /\ e = SDL_KEYDOWN SDLK_q) ->
             exists r g'' w'',
               game_event env g e w = Some ((r, g''), w'') /\
               (r = 0 \/ r = -1) /\
               (state g = GAME_STATE_RUNNING /\ e = SDL_KEYDOWN SDLK_q /\
                answer env (log w (printf fmt_reloading path) 0)
                       (load_platforms_from_file path) = NULL ->
                r = -1 /\ state g'' = GAME_STATE_QUIT /\
                hist w'' =
                hist w ++ [(printf fmt_reloading path, 0);
                           (load_platforms_from_file path, NULL);
                           (print_current_error_msg msg_could_not_reload, 0)]) /\
               (r <> 0 ->
                state g = GAME_STATE_RUNNING /\ e = SDL_KEYDOWN SDLK_q /\
                answer env (log w (printf fmt_reloading path) 0)
                       (load_platforms_from_file path) = NULL)).
  { intros g' w' E Hnot. exists 0, g', w'. split; [exact E|].
    split; [now left|]. split.
    - intros [H1 [H2 _]]. exfalso. apply Hnot. now split.
    - intros H. now contradiction H. }
  destruct (state g) eqn:Hs.
  - (* Running *)
    destruct e as [ | sym | button | ].
    + eapply quiet.
      * unfold game_event. rewrite Hs. reflexivity.
      * intros [_ H]; discriminate.
    + destruct (Z.eq_dec sym SDLK_q) as [-> | Hq].
      * clear quiet. rewrite (game_event_reload g w path Hs Hm). cbv zeta.
        destruct (answer env (log w (printf fmt_reloading path) 0)
                         (load_platforms_from_file path) =? NULL) eqn:En.
        -- apply Z.eqb_eq in En. do 3 eexists. split; [reflexivity|].
           split; [now right|]. split.
           ++ intros _. split; [reflexivity|]. split; [reflexivity|].
              simpl. rewrite En. now rewrite <- !app_assoc.
           ++ intros _. now repeat split.
        -- apply Z.eqb_neq in En.
           destruct (reset_frame (frames (lt g)) (platforms g) _)
             as [[d fs]|]; do 3 eexists; (split; [reflexivity|]);
             (split; [now left|]);
             (split; [intros [_ [_ H]]; contradiction
                     |intros H; now contradiction H]).
      * assert (Eq : (sym =? SDLK_q) = false) by now apply Z.eqb_neq.
        destruct (sym =? SDLK_SPACE) eqn:E1; [|destruct (sym =? SDLK_p) eqn:E2].
        -- eapply quiet.
           ++ unfold game_event. rewrite Hs. simpl. rewrite E1. reflexivity.
           ++ intros [_ H]. congruence.
        -- eapply quiet.
           ++ unfold game_event. rewrite Hs. simpl. rewrite E1, Eq, E2.
              reflexivity.
           ++ intros [_ H]. congruence.
        -- eapply quiet.
           ++ unfold game_event. rewrite Hs. simpl. rewrite E1, Eq, E2.
              reflexivity.
           ++ intros [_ H]. congruence.
    + destruct (button =? 1) eqn:Eb.
      * eapply quiet.
        -- unfold game_event. rewrite Hs. simpl. rewrite Eb. reflexivity.
        -- intros [_ H]; discriminate.
      * eapply quiet.
        -- unfold game_event. rewrite Hs. simpl. rewrite Eb. reflexivity.
        -- intros [_ H]; discriminate.
    + eapply quiet.
      * unfold game_event. rewrite Hs. reflexivity.
      * intros [_ H]; discriminate.
  - (* Pause *)
    destruct e as [ | sym | button | ];
      try (eapply quiet;
           [unfold game_event; rewrite Hs; reflexivity
           |intros [H _]; discriminate]).
    destruct (sym =? SDLK_p) eqn:Ep;
      (eapply quiet;
       [unfold game_event; rewrite Hs; simpl; rewrite Ep; reflexivity
       |intros [H _]; discriminate]).
  - eapply quiet;
      [unfold game_event; rewrite Hs; reflexivity|intros [H _]; discriminate].
  - eapply quiet;
      [unfold game_event; rewrite Hs; reflexivity|intros [H _]; discriminate].
Qed.

(** *** Construction *)

Lemma create_game_total (path : string) (w : world) :
  exists res w', create_game env sizeof_game_t path w = Some (res, w').
Proof.
  unfold create_game, create_lt, PUSH_LT, RETURN_LT, release_all. munfold.
  simpl.
  repeat match goal with
         | |- context [if ?b then _ else _] => destruct b eqn:?; simpl
         end; eauto.
Qed.

Ltac run_create H :=
  cbv beta iota delta
      [create_game create_lt PUSH_LT RETURN_LT release_all release_frames
       bind ret emit extern strcpy frames lt_addr rev app] in H.

Ltac next_answer H W x E :=
  match type of H with
  | context [answer env W ?c] =>
      remember (answer env W c) as x eqn:E in H
  end.

(** The shape of a successful construction: the answers of the
    collaborators, the session that is returned and the calls made. *)
Lemma create_game_success (path : string) (w : world) (g : game_t) (w' : world) :
  create_game env sizeof_game_t path w = Some (Some g, w') ->
  exists la gp k1 pp k2 qp k3 cp k4 bp k5,
    let pre := [(lt_alloc, la); (malloc sizeof_game_t, gp); (lt_grow la, k1);
                (create_player, pp); (lt_grow la, k2);
                (load_platforms_from_file path, qp); (lt_grow la, k3);
                (create_camera, cp); (lt_grow la, k4)] in
    let size := 1 * (Z.of_nat (String.length path) + 1) in
    (la <> NULL /\ gp <> NULL /\ pp <> NULL /\ qp <> NULL /\ cp <> NULL /\
     bp <> NULL) /\
    bp = env (hist w ++ pre) (malloc size) /\
    g = {| lt := {| lt_addr := la;
                    frames := [(gp, free); (pp, destroy_player);
                               (qp, destroy_platforms); (cp, destroy_camera);
                               (bp, free)] |};
           state := GAME_STATE_RUNNING;
           player := pp; platforms := qp; camera := cp;
           level_file_path := bp |} /\
    hist w' = hist w ++ pre ++ [(malloc size, bp); (lt_grow la, k5)] /\
    mem w' = mem_store (mem w) bp path.
Proof.
  intros H. run_create H.
  next_answer H w la Ela.
  destruct (la =? NULL) eqn:Nla; [discriminate|].
  next_answer H (log w lt_alloc la) gp Egp.
  set (w1 := log (log w lt_alloc la) (malloc sizeof_game_t) gp) in *.
  destruct (gp =? NULL) eqn:Ngp.
  { change (NULL =? NULL) with true in H. discriminate. }
  next_answer H w1 k1 Ek1.
  destruct (k1 =? 0) eqn:Nk1.
  { change (NULL =? NULL) with true in H. discriminate. }
  rewrite Ngp in H.
  set (w2 := log w1 (lt_grow la) k1) in *.
  next_answer H w2 pp Epp.
  set (w3 := log w2 create_player pp) in *.
  destruct (pp =? NULL) eqn:Npp.
  { change (NULL =? NULL) with true in H. discriminate. }
  next_answer H w3 k2 Ek2.
  destruct (k2 =? 0) eqn:Nk2.
  { change (NULL =? NULL) with true in H. discriminate. }
  rewrite Npp in H.
  set (w4 := log w3 (lt_grow la) k2) in *.
  next_answer H w4 qp Eqp.
  set (w5 := log w4 (load_platforms_from_file path) qp) in *.
  destruct (qp =? NULL) eqn:Nqp.
  { change (NULL =? NULL) with true in H. discriminate. }
  next_answer H w5 k3 Ek3.
  destruct (k3 =? 0) eqn:Nk3.
  { change (NULL =? NULL) with true in H. discriminate. }
  rewrite Nqp in H.
  set (w6 := log w5 (lt_grow la) k3) in *.
  next_answer H w6 cp Ecp.
  set (w7 := log w6 create_camera cp) in *.
  destruct (cp =? NULL) eqn:Ncp.
  { change (NULL =? NULL) with true in H. discriminate. }
  next_answer H w7 k4 Ek4.
  destruct (k4 =? 0) eqn:Nk4.
  { change (NULL =? NULL) with true in H. discriminate. }
  rewrite Ncp in H.
  set (w8 := log w7 (lt_grow la) k4) in *.
  next_answer H w8 bp Ebp.
  set (size := 1 * (Z.of_nat (String.length path) + 1)) in *.
  set (w9 := log w8 (malloc size) bp) in *.
  destruct (bp =? NULL) eqn:Nbp.
  { change (NULL =? NULL) with true in H. discriminate. }
  next_answer H w9 k5 Ek5.
  destruct (k5 =? 0) eqn:Nk5.
  { change (NULL =? NULL) with true in H. discriminate. }
  rewrite Nbp in H.
  injection H as Hg Hw.
  exists la, gp, k1, pp, k2, qp, k3, cp, k4, bp, k5. cbv zeta.
  apply Z.eqb_neq in Nla, Ngp, Npp, Nqp, Ncp, Nbp.
  split; [tauto|].
  split.
  { rewrite Ebp. unfold answer. f_equal.
    subst w8 w7 w6 w5 w4 w3 w2 w1. simpl. now rewrite <- !app_assoc. }
  split; [now symmetry|].
  subst w'. subst w9 w8 w7 w6 w5 w4 w3 w2 w1. simpl.
  split; [now rewrite <- !app_assoc|reflexivity].
Qed.

Ltac run_create_goal :=
  cbv beta iota delta
      [create_game create_lt PUSH_LT RETURN_LT release_all release_frames
       bind ret emit extern strcpy frames lt_addr rev app].

Ltac next_answer_goal W x E :=
  match goal with
  | |- context [answer env W ?c] => remember (answer env W c) as x eqn:E
  end.

Ltac null_facts :=
  repeat match goal with
         | H : (_ =? _) = true |- _ => apply Z.eqb_eq in H
         | H : (_ =? _) = false |- _ => apply Z.eqb_neq in H
         end.

(** A branch of [create_game] in which the level load did not fail: the
    history it leaves holds no failed load. *)
Ltac no_failed_load :=
  do 3 eexists;
  split; [reflexivity|];
  split; [simpl; rewrite <- ?app_assoc; reflexivity|];
  simpl; null_facts; intros HIn; exfalso;
  repeat (destruct HIn as [HIn | HIn];
          [try discriminate HIn; try (inversion HIn; congruence)|]);
  exact HIn.

(** C4: construction always returns, and when the level load of the
    construction fails it returns no session ([NULL]), having released,
    newest first and once each, exactly what had been registered before the
    load: the player and the session block; the ledger itself is then
    released. *)
Theorem failed_load_releases_player (path : string) (w : world) :
  exists res w' evs,
    create_game env sizeof_game_t path w = Some (res, w') /\
    hist w' = hist w ++ evs /\
    (In (load_platforms_from_file path, NULL) evs ->
     res = None /\
     exists la gp k1 pp k2,
       (la <> NULL /\ gp <> NULL /\ pp <> NULL) /\
       evs = [(lt_alloc, la); (malloc sizeof_game_t, gp); (lt_grow la, k1);
              (create_player, pp); (lt_grow la, k2);
              (load_platforms_from_file path, NULL);
              (destroy_player pp, 0); (free gp, 0); (lt_free la, 0)] /\
       filter is_release (map fst evs) = [destroy_player pp; free gp]).
Proof.
  run_create_goal.
  next_answer_goal w la Ela.
  destruct (la =? NULL) eqn:Nla; [no_failed_load|].
  next_answer_goal (log w lt_alloc la) gp Egp.
  set (w1 := log (log w lt_alloc la) (malloc sizeof_game_t) gp) in *.
  destruct (gp =? NULL) eqn:Ngp.
  { change (NULL =? NULL) with true. cbv iota. no_failed_load. }
  next_answer_goal w1 k1 Ek1.
  destruct (k1 =? 0) eqn:Nk1.
  { change (NULL =? NULL) with true. cbv iota. no_failed_load. }
  rewrite Ngp.
  set (w2 := log w1 (lt_grow la) k1) in *.
  next_answer_goal w2 pp Epp.
  set (w3 := log w2 create_player pp) in *.
  destruct (pp =? NULL) eqn:Npp.
  { change (NULL =? NULL) with true. cbv iota. no_failed_load. }
  next_answer_goal w3 k2 Ek2.
  destruct (k2 =? 0) eqn:Nk2.
  { change (NULL =? NULL) with true. cbv iota. no_failed_load. }
  rewrite Npp.
  set (w4 := log w3 (lt_grow la) k2) in *.
  next_answer_goal w4 qp Eqp.
  set (w5 := log w4 (load_platforms_from_file path) qp) in *.
  destruct (qp =? NULL) eqn:Nqp.
  { (* the level load fails *)
    change (NULL =? NULL) with true. cbv iota.
    null_facts. clear Eqp. subst qp.
    do 3 eexists.
    split; [reflexivity|].
    split; [simpl; rewrite <- ?app_assoc; reflexivity|].
    simpl. intros _. split; [reflexivity|].
    exists la, gp, k1, pp, k2. repeat split; assumption. }
  next_answer_goal w5 k3 Ek3.
  destruct (k3 =? 0) eqn:Nk3.
  { change (NULL =? NULL) with true. cbv iota. no_failed_load. }
  rewrite Nqp.
  set (w6 := log w5 (lt_grow la) k3) in *.
  next_answer_goal w6 cp Ecp.
  set (w7 := log w6 create_camera cp) in *.
  destruct (cp =? NULL) eqn:Ncp.
  { change (NULL =? NULL) with true. cbv iota. no_failed_load. }
  next_answer_goal w7 k4 Ek4.
  destruct (k4 =? 0) eqn:Nk4.
  { change (NULL =? NULL) with true. cbv iota. no_failed_load. }
  rewrite Ncp.
  set (w8 := log w7 (lt_grow la) k4) in *.
  set (size := 1 * (Z.of_nat (String.length path) + 1)) in *.
  next_answer_goal w8 bp Ebp.
  set (w9 := log w8 (malloc size) bp) in *.
  destruct (bp =? NULL) eqn:Nbp.
  { change (NULL =? NULL) with true. cbv iota. no_failed_load. }
  next_answer_goal w9 k5 Ek5.
  destruct (k5 =? 0) eqn:Nk5.
  { change (NULL =? NULL) with true. cbv iota. no_failed_load. }
  rewrite Nbp.
  no_failed_load.
Qed.

(** *** Teardown *)

Lemma PUSH_LT_success (l : lt_t) (h : ptr) (d : lt_destroy_t) (w : world)
      (h' : ptr) (l' : lt_t) (w' : world) :
  PUSH_LT env l h d w = Some ((h', l'), w') ->
  h' <> NULL ->
  h' = h /\ lt_addr l' = lt_addr l /\ frames l' = frames l ++ [(h, d)].
Proof.
  unfold PUSH_LT. intros H Hn.
  destruct (h =? NULL).
  - unfold ret in H. injection H as <- _ _. now contradiction Hn.
  - unfold bind, extern, ret in H.
    destruct (answer env w (lt_grow (lt_addr l)) =? 0);
      injection H as <- <- _.
    + now contradiction Hn.
    + simpl. auto.
Qed.

Lemma register_all_frames (rs : list (ptr * lt_destroy_t)) :
  forall l w hs l' w',
    register_all env rs l w = Some ((hs, l'), w') ->
    Forall (fun h => h <> NULL) hs ->
    hs = map fst rs /\ lt_addr l' = lt_addr l /\ frames l' = frames l ++ rs.
Proof.
  induction rs as [|[h d] rs IH]; intros l w hs l' w' H Hn.
  - simpl in H. unfold ret in H. injection H as <- <- _.
    now rewrite app_nil_r.
  - simpl in H. unfold bind at 1 in H.
    destruct (PUSH_LT env l h d w) as [[[h1 l1] w1]|] eqn:E1; [|discriminate].
    unfold bind in H.
    destruct (register_all env rs l1 w1) as [[[hs2 l2] w2]|] eqn:E2;
      [|discriminate].
    unfold ret in H. injection H as <- <- _.
    inversion Hn as [|x xs Hx Hxs]; subst.
    destruct (PUSH_LT_success _ _ _ _ _ _ _ E1 Hx) as [-> [Ha Hf]].
    destruct (IH _ _ _ _ _ E2 Hxs) as [-> [Ha2 Hf2]].
    repeat split.
    + congruence.
    + rewrite Hf2, Hf, <- app_assoc. reflexivity.
Qed.

(** C1: releasing the whole ledger runs the stored release operations in
    exactly the reverse of the registration order, each once.  First for any
    sequence of successful registrations into an empty ledger; then for the
    session, where the registrations are the session block, the player, the
    level geometry, the camera and the path buffer, and [destroy_game]
    releases them from the path buffer back to the session block before the
    ledger itself. *)
Theorem teardown_reverses_registration :
  (forall (rs : list (ptr * lt_destroy_t)) (l0 : lt_t) (w0 : world)
          (hs : list ptr) (l : lt_t) (w : world),
      frames l0 = [] ->
      register_all env rs l0 w0 = Some ((hs, l), w) ->
      Forall (fun h => h <> NULL) hs ->
      exists l' w',
        release_all l w = Some (l', w') /\
        frames l' = [] /\
        hist w' = hist w ++ map (fun f => (release_call f, 0)) (rev rs)) /\
  (forall (path : string) (w0 : world) (g : game_t) (w : world),
      create_game env sizeof_game_t path w0 = Some (Some g, w) ->
      exists gp w',
        In (gp, free) (frames (lt g)) /\
        destroy_game g w = Some (tt, w') /\
        hist w' = hist w ++ [(free (level_file_path g), 0);
                             (destroy_camera (camera g), 0);
                             (destroy_platforms (platforms g), 0);
                             (destroy_player (player g), 0);
                             (free gp, 0);
                             (lt_free (lt_addr (lt g)), 0)]).
Proof.
  split.
  - intros rs l0 w0 hs l w H0 H Hn.
    destruct (register_all_frames rs l0 w0 hs l w H Hn) as [_ [_ Hf]].
    rewrite H0 in Hf. simpl in Hf.
    unfold release_all, bind. rewrite release_frames_logs. unfold ret.
    do 2 eexists. split; [reflexivity|]. split; [reflexivity|].
    rewrite hist_logs, Hf, map_map. reflexivity.
  - intros path w0 g w H.
    destruct (create_game_success path w0 g w H)
      as (la & gp & k1 & pp & k2 & qp & k3 & cp & k4 & bp & k5 & _ & _ & Hg & _).
    exists gp. unfold destroy_game, RETURN_LT0. rewrite RETURN_LT_logs.
    eexists. split; [|split; [reflexivity|]].
    + rewrite Hg. simpl. now left.
    + rewrite hist_logs. rewrite Hg. reflexivity.
Qed.

(** *** The invariant of the session *)

Lemma live_snoc (h : history) (e : call * Z) :
  live (h ++ [e]) = live_step (live h) e.
Proof. unfold live. now rewrite fold_left_app. Qed.

Lemma live_neutral (evs : history) : forall h,
  Forall (fun e => neutral (fst e) = true) evs ->
  live (h ++ evs) = live h.
Proof.
  induction evs as [|[c r] evs IH]; intros h Hn.
  - now rewrite app_nil_r.
  - inversion Hn as [|x xs Hc Hrest]; subst.
    change (h ++ (c, r) :: evs) with (h ++ [(c, r)] ++ evs).
    rewrite app_assoc, IH, live_snoc by assumption.
    simpl in Hc. unfold neutral in Hc. apply andb_true_iff in Hc.
    destruct Hc as [Ha Hr]. apply negb_true_iff in Ha.
    simpl. rewrite Ha. destruct (released c); [discriminate|reflexivity].
Qed.

Lemma last_loaded_app (h1 : history) : forall h2 acc,
  last_loaded (h1 ++ h2) acc = last_loaded h2 (last_loaded h1 acc).
Proof.
  induction h1 as [|[c r] h1 IH]; intros h2 acc; [reflexivity|].
  destruct c; simpl; apply IH.
Qed.

Lemma last_loaded_neutral (evs : history) : forall acc,
  Forall (fun e => neutral (fst e) = true) evs ->
  last_loaded evs acc = acc.
Proof.
  induction evs as [|[c r] evs IH]; intros acc Hn; [reflexivity|].
  inversion Hn as [|x xs Hc Hrest]; subst.
  destruct c; simpl in *; try discriminate; now apply IH.
Qed.

Lemma quiet_ret {A : Type} (a : A) : quiet (ret a).
Proof.
  intros w. exists a, w, []. rewrite app_nil_r. repeat split. constructor.
Qed.

Lemma quiet_emit (c : call) : neutral c = true -> quiet (emit c).
Proof.
  intros Hc w. exists tt, (log w c 0), [(c, 0)].
  repeat split.
  - simpl. destruct c; try reflexivity; discriminate.
  - repeat constructor. exact Hc.
Qed.

Lemma quiet_extern (c : call) : neutral c = true -> quiet (extern env c).
Proof.
  intros Hc w. exists (answer env w c), (log w c (answer env w c)),
                 [(c, answer env w c)].
  repeat split.
  - simpl. destruct c; try reflexivity; discriminate.
  - repeat constructor. exact Hc.
Qed.

Lemma quiet_bind {A B : Type} (m : M A) (k : A -> M B) :
  quiet m -> (forall a, quiet (k a)) -> quiet (bind m k).
Proof.
  intros Hm Hk w.
  destruct (Hm w) as (a & w1 & evs1 & E1 & Hh1 & Hm1 & Hn1).
  destruct (Hk a w1) as (b & w2 & evs2 & E2 & Hh2 & Hm2 & Hn2).
  exists b, w2, (evs1 ++ evs2). unfold bind. rewrite E1.
  repeat split.
  - exact E2.
  - rewrite Hh2, Hh1. now rewrite app_assoc.
  - congruence.
  - apply Forall_app. now split.
Qed.

Ltac quiet_steps :=
  repeat first
         [ apply quiet_ret
         | apply quiet_emit; reflexivity
         | apply quiet_extern; reflexivity
         | apply quiet_bind; [|intros ?]
         | match goal with
           | |- quiet (if ?b then _ else _) => destruct b
           end ].

Lemma game_input_quiet (g : game_t) (kb : Z -> Z) (stick : ptr) :
  stick <> NULL -> quiet (game_input env g kb stick).
Proof.
  intros Hn. unfold game_input. rewrite (nonnull_true _ Hn).
  change (assert true) with (ret tt). quiet_steps.
Qed.

Lemma game_update_quiet (g : game_t) (dt : Z) :
  0 < dt -> quiet (game_update g dt).
Proof.
  intros Hdt. unfold game_update. apply Z.ltb_lt in Hdt. rewrite Hdt.
  change (assert true) with (ret tt). quiet_steps.
Qed.

Lemma game_render_quiet (g : game_t) (rd : ptr) :
  rd <> NULL -> quiet (game_render env g rd).
Proof.
  intros Hn. unfold game_render. rewrite (nonnull_true _ Hn).
  change (assert true) with (ret tt). quiet_steps.
Qed.

Lemma inv_quiet (path : string) (g : game_t) (w w' : world) (evs : history) :
  session_inv path g w ->
  hist w' = hist w ++ evs ->
  mem w' = mem w ->
  Forall (fun e => neutral (fst e) = true) evs ->
  session_inv path g w'.
Proof.
  intros (H1 & H2 & H3 & H4 & H5 & H6 & H7 & H8 & H9) Hh Hm Hn.
  unfold session_inv. rewrite Hh, Hm, live_neutral, last_loaded_app by assumption.
  rewrite H8, last_loaded_neutral by assumption. tauto.
Qed.

Lemma inv_set_state (path : string) (g : game_t) (w : world) (s : game_state_t) :
  session_inv path g w ->
  (s <> GAME_STATE_QUIT -> platforms g <> NULL) ->
  session_inv path (set_state g s) w.
Proof.
  intros (H1 & H2 & H3 & H4 & H5 & H6 & H7 & H8 & H9) Hs.
  unfold session_inv. simpl. tauto.
Qed.

Lemma reset_frame_known (fs : list (ptr * lt_destroy_t)) (old new : ptr) :
  forall d fs',
    reset_frame fs old new = Some (d, fs') ->
    Forall (fun f => known_destroy (snd f)) fs ->
    known_destroy d /\ Forall (fun f => known_destroy (snd f)) fs'.
Proof.
  induction fs as [|[h d0] fs IH]; intros d fs' H Hk; [discriminate|].
  inversion Hk as [|x xs Hd Hrest]; subst. simpl in H.
  destruct (h =? old).
  - injection H as <- <-. split; [exact Hd|]. now constructor.
  - destruct (reset_frame fs old new) as [[d1 fs1]|]; [|discriminate].
    injection H as <- <-.
    destruct (IH d1 fs1 eq_refl Hrest) as [Hd1 Hfs1].
    split; [exact Hd1|]. now constructor.
Qed.

Hypothesis env_fresh : allocator_fresh env.

Lemma inv_reload (path : string) (g : game_t) (w : world) :
  session_inv path g w ->
  state g = GAME_STATE_RUNNING ->
  exists z g' w',
    game_event env g (SDL_KEYDOWN SDLK_q) w = Some ((z, g'), w') /\
    session_inv path g' w'.
Proof.
  intros Hinv Hs.
  pose proof Hinv as (H1 & H2 & H3 & H4 & H5 & H6 & H7 & H8 & H9).
  rewrite (game_event_reload g w path Hs H7). cbv zeta.
  set (w1 := log w (printf fmt_reloading path) 0).
  set (new := answer env w1 (load_platforms_from_file path)).
  assert (Hl1 : live (hist w1) = live (hist w)).
  { unfold w1. simpl. now rewrite live_snoc. }
  assert (Hnew : new <> level_file_path g).
  { intros E. apply (env_fresh (hist w1) (load_platforms_from_file path) eq_refl).
    fold (answer env w1 (load_platforms_from_file path)). fold new.
    rewrite E, Hl1. exact H6. }
  destruct (new =? NULL) eqn:En.
  - (* the loader fails *)
    apply Z.eqb_eq in En. do 3 eexists. split; [reflexivity|].
    unfold session_inv. simpl.
    rewrite !live_snoc, !last_loaded_app, H8. simpl. rewrite En. simpl.
    repeat split; try assumption; try congruence.
  - (* the loader succeeds *)
    apply Z.eqb_neq in En.
    assert (En' : (new =? NULL) = false) by now apply Z.eqb_neq.
    destruct (reset_frame (frames (lt g)) (platforms g) new)
      as [[d fs]|] eqn:Er.
    + destruct (reset_frame_known _ _ _ _ _ Er H9) as [Hd Hfs].
      do 3 eexists. split; [reflexivity|].
      unfold session_inv. simpl.
      rewrite !live_snoc, !last_loaded_app, H8.
      assert (Hlive : In (level_file_path g)
                         (live_step
                            (live_step
                               (live_step (live (hist w))
                                          (printf fmt_reloading path, 0))
                               (load_platforms_from_file path, new))
                            (d (platforms g), 0))).
      { destruct Hd as [-> | [-> | [-> | ->]]]; simpl; rewrite En';
          (apply in_in_remove; [congruence|]); now right. }
      assert (Hmem : mem_after (d (platforms g)) (mem w) (level_file_path g)
                     = Some path).
      { destruct Hd as [-> | [-> | [-> | ->]]]; simpl; try exact H7.
        unfold mem_drop.
        assert (E : (level_file_path g =? platforms g) = false)
          by (apply Z.eqb_neq; congruence).
        rewrite E. exact H7. }
      assert (Hlast : last_loaded [(d (platforms g), 0)]
                        (last_loaded [(load_platforms_from_file path, new)]
                           (last_loaded [(printf fmt_reloading path, 0)]
                                        (Some path))) = Some path).
      { destruct Hd as [-> | [-> | [-> | ->]]]; simpl; rewrite En';
          reflexivity. }
      repeat split; try assumption.
      intros _. exact En.
    + do 3 eexists. split; [reflexivity|].
      unfold session_inv. simpl.
      rewrite !live_snoc, !last_loaded_app, H8. simpl. rewrite En'.
      repeat split; try assumption.
      * intros _. exact En.
      * now right.
Qed.

Lemma inv_same (path : string) (g : game_t) (w : world) (z : Z) :
  session_inv path g w ->
  exists z' g' w', Some ((z, g), w) = Some ((z', g'), w') /\
                   session_inv path g' w'.
Proof. intros H. now exists z, g, w. Qed.

Lemma inv_jump (path : string) (g : game_t) (w : world) :
  session_inv path g w ->
  exists z' g' w',
    Some ((0, g), log w (player_jump (player g)) 0) = Some ((z', g'), w') /\
    session_inv path g' w'.
Proof.
  intros H. do 3 eexists. split; [reflexivity|].
  eapply inv_quiet with (evs := [(player_jump (player g), 0)]);
    [exact H|reflexivity|reflexivity|now repeat constructor].
Qed.

Lemma step_inv (path : string) (c : frame_call) (g : game_t) (w : world) :
  session_inv path g w ->
  valid_call c ->
  exists z g' w',
    step env c g w = Some ((z, g'), w') /\ session_inv path g' w'.
Proof.
  intros Hinv Hv. destruct c as [kb stick | e | dt | rd]; simpl in Hv.
  - destruct (game_input_quiet g kb stick Hv w)
      as (a & w' & evs & E & Hh & Hm & Hn).
    exists a, g, w'. simpl. unfold bind. rewrite E.
    split; [reflexivity|]. eapply inv_quiet; eassumption.
  - simpl. unfold game_event.
    pose proof Hinv as (_ & _ & _ & H4 & _).
    destruct (state g) eqn:Hs.
    + (* Running *)
      assert (Hp : platforms g <> NULL) by (apply H4; discriminate).
      destruct e as [ | sym | button | ]; simpl.
      * do 3 eexists. split; [reflexivity|].
        apply inv_set_state; [exact Hinv|congruence].
      * destruct (Z.eq_dec sym SDLK_q) as [-> | Hq].
        -- pose proof (inv_reload path g w Hinv Hs) as Hr.
           unfold game_event in Hr. rewrite Hs in Hr. exact Hr.
        -- assert (Eq : (sym =? SDLK_q) = false) by now apply Z.eqb_neq.
           rewrite Eq.
           destruct (sym =? SDLK_SPACE); [now apply inv_jump|].
           destruct (sym =? SDLK_p).
           ++ do 3 eexists. split; [reflexivity|].
              apply inv_set_state; [exact Hinv|intros _; exact Hp].
           ++ now apply inv_same.
      * destruct (button =? 1); [now apply inv_jump|now apply inv_same].
      * now apply inv_same.
    + (* Pause *)
      assert (Hp : platforms g <> NULL) by (apply H4; discriminate).
      destruct e as [ | sym | button | ]; simpl.
      * do 3 eexists. split; [reflexivity|].
        apply inv_set_state; [exact Hinv|congruence].
      * destruct (sym =? SDLK_p).
        -- do 3 eexists. split; [reflexivity|].
           apply inv_set_state; [exact Hinv|intros _; exact Hp].
        -- now apply inv_same.
      * now apply inv_same.
      * now apply inv_same.
    + now apply inv_same.
    + now apply inv_same.
  - destruct (game_update_quiet g dt Hv w)
      as (a & w' & evs & E & Hh & Hm & Hn).
    exists a, g, w'. simpl. unfold bind. rewrite E.
    split; [reflexivity|]. eapply inv_quiet; eassumption.
  - destruct (game_render_quiet g rd Hv w)
      as (a & w' & evs & E & Hh & Hm & Hn).
    exists a, g, w'. simpl. unfold bind. rewrite E.
    split; [reflexivity|]. eapply inv_quiet; eassumption.
Qed.

Lemma run_inv (path : string) (cs : list frame_call) :
  forall g w,
    session_inv path g w ->
    Forall valid_call cs ->
    exists zs g' w',
      run env cs g w = Some ((zs, g'), w') /\ session_inv path g' w'.
Proof.
  induction cs as [|c cs IH]; intros g w Hinv Hv.
  - exists [], g, w. now split.
  - inversion Hv as [|x xs Hc Hcs]; subst.
    destruct (step_inv path c g w Hinv Hc) as (z & g1 & w1 & E1 & Hinv1).
    destruct (IH g1 w1 Hinv1 Hcs) as (zs & g2 & w2 & E2 & Hinv2).
    exists (z :: zs), g2, w2. simpl. unfold bind. rewrite E1, E2.
    now split.
Qed.

Lemma create_game_inv (path : string) (w0 : world) (g : game_t) (w : world) :
  create_game env sizeof_game_t path w0 = Some (Some g, w) ->
  session_inv path g w.
Proof.
  intros H.
  destruct (create_game_success path w0 g w H)
    as (la & gp & k1 & pp & k2 & qp & k3 & cp & k4 & bp & k5 &
        (Nla & Ngp & Npp & Nqp & Ncp & Nbp) & Ebp & Hg & Hh & Hm).
  cbv zeta in *.
  assert (Z1 : (la =? NULL) = false) by now apply Z.eqb_neq.
  assert (Z2 : (gp =? NULL) = false) by now apply Z.eqb_neq.
  assert (Z3 : (pp =? NULL) = false) by now apply Z.eqb_neq.
  assert (Z4 : (qp =? NULL) = false) by now apply Z.eqb_neq.
  assert (Z5 : (cp =? NULL) = false) by now apply Z.eqb_neq.
  assert (Z6 : (bp =? NULL) = false) by now apply Z.eqb_neq.
  assert (Hfresh : ~ In bp (cp :: qp :: pp :: gp :: la :: live (hist w0))).
  { rewrite Ebp.
    match goal with
    | |- ~ In (env ?h ?c) _ =>
        pose proof (env_fresh h c eq_refl) as F
    end.
    unfold live in F. rewrite fold_left_app in F. simpl in F.
    rewrite Z1, Z2, Z3, Z4, Z5 in F. exact F. }
  unfold session_inv. rewrite Hg, Hh, Hm. simpl.
  split; [exact Npp|]. split; [exact Ncp|]. split; [exact Nbp|].
  split; [intros _; exact Nqp|].
  split; [intros E; apply Hfresh; rewrite <- E; right; now left|].
  split.
  { unfold live. rewrite fold_left_app. simpl.
    rewrite Z1, Z2, Z3, Z4, Z5, Z6. now left. }
  split; [unfold mem_store; now rewrite Z.eqb_refl|].
  split; [rewrite last_loaded_app; simpl; now rewrite Z4|].
  repeat constructor; unfold known_destroy; simpl; tauto.
Qed.

End Properties.

(** ** The example environments allocate fresh addresses *)

Lemma live_step_results (h : history) : forall acc x,
  In x (fold_left live_step h acc) -> In x acc \/ In x (map snd h).
Proof.
  induction h as [|[c r] h IH]; intros acc x Hx; [now left|].
  simpl in Hx. apply IH in Hx. destruct Hx as [Hx | Hx].
  - destruct (is_alloc c).
    + destruct (r =? NULL); [now left|].
      destruct Hx as [<- | Hx]; [right; now left|now left].
    + destruct (released c); [|now left].
      apply in_remove in Hx. left. tauto.
  - right. now right.
Qed.

Lemma live_step_nonnull (h : history) : forall acc,
  ~ In NULL acc -> ~ In NULL (fold_left live_step h acc).
Proof.
  induction h as [|[c r] h IH]; intros acc Hacc; [exact Hacc|].
  simpl. apply IH. destruct (is_alloc c).
  - destruct (r =? NULL) eqn:E; [exact Hacc|].
    apply Z.eqb_neq in E. intros [H | H]; [congruence|contradiction].
  - destruct (released c); [|exact Hacc].
    intros H. apply in_remove in H. tauto.
Qed.

Lemma max_bound (l : list Z) (x : Z) :
  In x l -> x <= fold_right Z.max 1000 l.
Proof.
  induction l as [|y l IH]; intros H; [contradiction|].
  simpl. destruct H as [-> | H]; [lia|]. apply IH in H. lia.
Qed.

Lemma fresh_addr_fresh (h : history) : ~ In (fresh_addr h) (live h).
Proof.
  intros H. apply live_step_results in H. destruct H as [[] | H].
  apply max_bound in H. unfold fresh_addr in H. lia.
Qed.

Lemma env_ok_fresh : allocator_fresh env_ok.
Proof.
  intros h c Hc. destruct c; try discriminate Hc; apply fresh_addr_fresh.
Qed.

Lemma env_reload_fails_fresh : allocator_fresh env_reload_fails.
Proof.
  intros h c Hc. destruct c; try discriminate Hc; simpl;
    try apply fresh_addr_fresh.
  destruct (last_loaded h None); [|apply fresh_addr_fresh].
  apply live_step_nonnull. intros [].
Qed.

(** ** The session on examples *)

Example construction_ok :
  create_game env_ok 64 "lvl" world0 = Some (Some game0, world1).
Proof. reflexivity. Qed.

(** The format ends in one line feed, as the C literal does. *)
Example fmt_reloading_length : String.length fmt_reloading = 33%nat.
Proof. reflexivity. Qed.

(** The end-to-end scenario: pause, resume, close the window, render. *)
Example pause_resume_quit :
  option_map fst
    (run env_ok [call_event (SDL_KEYDOWN SDLK_p);
                 call_event (SDL_KEYDOWN SDLK_p);
                 call_event SDL_QUIT;
                 call_render 5] game0 world1)
  = Some ([0; 0; 0; 0], set_state game0 GAME_STATE_QUIT).
Proof. reflexivity. Qed.

(** No key held and the stick centred: the axis is read twice, then stop. *)
Example idle_input_stops :
  option_map (fun rw => (fst rw, hist (snd rw)))
             (game_input env_ok game0 keys_none 7 world1)
  = Some (0, hist world1 ++ [(SDL_JoystickGetAxis 7 0, 0);
                             (SDL_JoystickGetAxis 7 0, 0);
                             (player_stop 1003, 0)]).
Proof. reflexivity. Qed.

Example render_with_failing_clear :
  option_map (fun rw => (fst rw, hist (snd rw)))
             (game_render env_clear_fails game0 5 world1)
  = Some (-1, hist world1 ++ [(SDL_SetRenderDrawColor 5 0 0 0 255, 1);
                              (SDL_RenderClear 5, -1);
                              (throw_error ERROR_TYPE_SDL2, 0)]).
Proof. reflexivity. Qed.

(** ** The theorems at concrete inputs *)

Lemma teardown_reverses_registration_witness :
  (exists l' w',
      release_all {| lt_addr := 1; frames := [(5, free); (6, destroy_player)] |}
                  (log (log world0 (lt_grow 1) 1) (lt_grow 1) 1)
      = Some (l', w') /\
      frames l' = [] /\
      hist w' = [(lt_grow 1, 1); (lt_grow 1, 1)] ++
                [(destroy_player 6, 0); (free 5, 0)]) /\
  (exists gp w',
      In (gp, free) (frames (lt game0)) /\
      destroy_game game0 world1 = Some (tt, w') /\
      hist w' = hist world1 ++ [(free 1006, 0); (destroy_camera 1005, 0);
                                (destroy_platforms 1004, 0);
                                (destroy_player 1003, 0); (free gp, 0);
                                (lt_free 1001, 0)]).
Proof.
  split.
  - apply (proj1 (teardown_reverses_registration env_ok 64)
                 [(5, free); (6, destroy_player)]
                 {| lt_addr := 1; frames := [] |} world0 [5; 6]).
    + reflexivity.
    + reflexivity.
    + repeat constructor; discriminate.
  - apply (proj2 (teardown_reverses_registration env_ok 64)
                 "lvl"%string world0 game0 world1).
    reflexivity.
Defined.

Lemma failed_reload_keeps_ledger_witness :
  state game0 = GAME_STATE_RUNNING /\
  mem world1 (level_file_path game0) = Some "lvl"%string /\
  answer env_reload_fails (log world1 (printf fmt_reloading "lvl") 0)
         (load_platforms_from_file "lvl") = NULL /\
  RESET_LT (lt game0) (platforms game0) NULL world1
  = Some ((NULL, lt game0), world1) /\
  exists r g' w' evs,
    game_event env_reload_fails game0 (SDL_KEYDOWN SDLK_q) world1
    = Some ((r, g'), w') /\
    lt g' = lt game0 /\
    (forall d, In (platforms game0, d) (frames (lt game0)) ->
               In (platforms game0, d) (frames (lt g'))) /\
    hist w' = hist world1 ++ evs /\
    mem w' = mem world1 /\
    filter is_release (map fst evs) = [].
Proof.
  split; [reflexivity|]. split; [reflexivity|]. split; [reflexivity|].
  apply (failed_reload_keeps_ledger env_reload_fails game0 world1 "lvl");
    reflexivity.
Defined.

Lemma reload_failure_is_the_only_error_witness :
  mem world1 (level_file_path game0) = Some "lvl"%string /\
  exists r g' w',
    game_event env_reload_fails game0 (SDL_KEYDOWN SDLK_q) world1
    = Some ((r, g'), w') /\
    r = -1 /\ state g' = GAME_STATE_QUIT /\
    hist w' = hist world1 ++
              [(printf fmt_reloading "lvl", 0);
               (load_platforms_from_file "lvl", NULL);
               (print_current_error_msg msg_could_not_reload, 0)].
Proof.
  split; [reflexivity|].
  destruct (reload_failure_is_the_only_error
              env_reload_fails game0 (SDL_KEYDOWN SDLK_q) world1 "lvl" eq_refl)
    as (r & g' & w' & E & _ & Hfail & _).
  exists r, g', w'. split; [exact E|].
  apply Hfail. repeat split.
Defined.

Lemma failed_load_releases_player_witness :
  exists res w' evs,
    create_game env_no_level 64 "lvl" world0 = Some (res, w') /\
    hist w' = hist world0 ++ evs /\
    In (load_platforms_from_file "lvl", NULL) evs /\
    res = None /\
    filter is_release (map fst evs) = [destroy_player 1003; free 1002].
Proof.
  destruct (failed_load_releases_player env_no_level 64 "lvl" world0)
    as (res & w' & evs & E & Hh & Himp).
  exists res, w', evs.
  assert (Hev : evs = [(lt_alloc, 1001); (malloc 64, 1002); (lt_grow 1001, 1);
                       (create_player, 1003); (lt_grow 1001, 1);
                       (load_platforms_from_file "lvl", NULL);
                       (destroy_player 1003, 0); (free 1002, 0);
                       (lt_free 1001, 0)]).
  { vm_compute in E. injection E as _ Hw. rewrite <- Hw in Hh.
    simpl in Hh. now symmetry. }
  assert (HIn : In (load_platforms_from_file "lvl", NULL) evs).
  { rewrite Hev. simpl. tauto. }
  destruct (Himp HIn) as (Hres & la & gp & k1 & pp & k2 & _ & _ & Hrel).
  repeat split; try assumption.
  rewrite Hev. reflexivity.
Defined.

Lemma terminated_is_absorbing_witness :
  state (set_state game0 GAME_STATE_QUIT) = GAME_STATE_QUIT /\
  Forall valid_call [call_input keys_A_and_D 7;
                     call_event (SDL_KEYDOWN SDLK_q);
                     call_event (SDL_KEYDOWN SDLK_p);
                     call_update 16; call_render 5] /\
  run env_ok [call_input keys_A_and_D 7;
              call_event (SDL_KEYDOWN SDLK_q);
              call_event (SDL_KEYDOWN SDLK_p);
              call_update 16; call_render 5]
      (set_state game0 GAME_STATE_QUIT) world1
  = Some (([0; 0; 0; 0; 0], set_state game0 GAME_STATE_QUIT), world1).
Proof.
  assert (Hv : Forall valid_call [call_input keys_A_and_D 7;
                                  call_event (SDL_KEYDOWN SDLK_q);
                                  call_event (SDL_KEYDOWN SDLK_p);
                                  call_update 16; call_render 5]).
  { repeat constructor; simpl; discriminate. }
  split; [reflexivity|]. split; [exact Hv|].
  apply (terminated_is_absorbing env_ok _ (set_state game0 GAME_STATE_QUIT)
                                 world1 eq_refl Hv).
Defined.

Lemma input_precedence_witness :
  state game0 = GAME_STATE_RUNNING /\
  7 <> NULL /\
  exists w' evs,
    game_input env_ok game0 keys_A_and_D 7 world1 = Some (0, w') /\
    hist w' = hist world1 ++ evs /\
    filter is_movement (map fst evs) = [player_move_left (player game0)].
Proof.
  split; [reflexivity|]. split; [discriminate|].
  destruct (input_precedence env_ok game0 keys_A_and_D 7 world1 eq_refl)
    as (w' & evs & c & E & Hh & _ & Hf & HA & _); [discriminate|].
  exists w', evs. split; [exact E|]. split; [exact Hh|].
  rewrite Hf, HA; [reflexivity|discriminate].
Defined.

Lemma pause_suppresses_update_witness :
  state (set_state game0 GAME_STATE_PAUSE) = GAME_STATE_PAUSE /\
  0 < 1000000 /\
  game_update (set_state game0 GAME_STATE_PAUSE) 1000000 world1
  = Some (0, world1) /\
  step env_ok (call_update 1000000) (set_state game0 GAME_STATE_PAUSE) world1
  = Some ((0, set_state game0 GAME_STATE_PAUSE), world1).
Proof.
  split; [reflexivity|]. split; [lia|].
  apply (pause_suppresses_update env_ok); [reflexivity|lia].
Defined.

Lemma render_failure_aborts_witness :
  state game0 <> GAME_STATE_QUIT /\
  5 <> NULL /\
  answer env_clear_fails
         (log world1 (SDL_SetRenderDrawColor 5 0 0 0 255)
              (answer env_clear_fails world1
                      (SDL_SetRenderDrawColor 5 0 0 0 255)))
         (SDL_RenderClear 5) < 0 /\
  exists w',
    game_render env_clear_fails game0 5 world1 = Some (-1, w') /\
    step env_clear_fails (call_render 5) game0 world1
    = Some ((-1, game0), w') /\
    hist w' = hist world1 ++ [(SDL_SetRenderDrawColor 5 0 0 0 255, 1);
                              (SDL_RenderClear 5, -1);
                              (throw_error ERROR_TYPE_SDL2, 0)] /\
    (forall c z, In (c, z) (hist w') -> ~ In (c, z) (hist world1) ->
                 is_present c = false).
Proof.
  assert (Hclear : answer env_clear_fails
                     (log world1 (SDL_SetRenderDrawColor 5 0 0 0 255)
                          (answer env_clear_fails world1
                                  (SDL_SetRenderDrawColor 5 0 0 0 255)))
                     (SDL_RenderClear 5) < 0).
  { vm_compute. reflexivity. }
  split; [discriminate|]. split; [discriminate|]. split; [exact Hclear|].
  destruct (render_failure_aborts env_clear_fails game0 5 world1)
    as (w' & pre & c & z & E & Est & Hh & _ & _ & _ & _ & Hnp);
    [discriminate|discriminate|right; left; exact Hclear|].
  exists w'. split; [exact E|]. split; [exact Est|]. split; [|exact Hnp].
  pose proof E as E'. vm_compute in E'. injection E' as E'.
  rewrite <- E'. reflexivity.
Defined.

Lemma unbound_input_ignored_witness :
  state game0 = GAME_STATE_RUNNING /\
  ((exists k, SDL_KEYDOWN 97 = SDL_KEYDOWN k /\
              k <> SDLK_SPACE /\ k <> SDLK_q /\ k <> SDLK_p) \/
   (exists b, SDL_KEYDOWN 97 = SDL_JOYBUTTONDOWN b /\ b <> 1)) /\
  game_event env_ok game0 (SDL_KEYDOWN 97) world1 = Some ((0, game0), world1).
Proof.
  assert (Hk : (exists k, SDL_KEYDOWN 97 = SDL_KEYDOWN k /\
                          k <> SDLK_SPACE /\ k <> SDLK_q /\ k <> SDLK_p) \/
               (exists b, SDL_KEYDOWN 97 = SDL_JOYBUTTONDOWN b /\ b <> 1)).
  { left. exists 97. repeat split; discriminate. }
  split; [reflexivity|]. split; [exact Hk|].
  apply (unbound_input_ignored env_ok game0 (SDL_KEYDOWN 97) world1 eq_refl Hk).
Defined.

(** ** Where the code departs from the claim *)

(** C9 as stated fails: under an allocator that hands out fresh addresses,
    a session is constructed, the reload key is pressed and the loader fails;
    the state reached is Terminated and the level-geometry handle of the
    session is null. *)
Lemma failed_reload_nulls_geometry :
  allocator_fresh env_reload_fails /\
  exists g w g' w',
    create_game env_reload_fails 64 "lvl" world0 = Some (Some g, w) /\
    run env_reload_fails [call_event (SDL_KEYDOWN SDLK_q)] g w
    = Some (([-1], g'), w') /\
    state g' = GAME_STATE_QUIT /\
    platforms g' = NULL /\
    ~ (player g' <> NULL /\ platforms g' <> NULL /\ camera g' <> NULL /\
       level_file_path g' <> NULL).
Proof.
  split; [exact env_reload_fails_fresh|].
  exists game0, world1.
  exists (set_state (set_platforms game0 (lt game0) NULL) GAME_STATE_QUIT).
  eexists. split; [reflexivity|]. split; [reflexivity|].
  split; [reflexivity|]. split; [reflexivity|].
  simpl. intros [_ [H _]]. now apply H.
Qed.

(** * Further properties of [game.c] *)

Lemma set_state_same (g : game_t) : set_state g (state g) = g.
Proof. now destruct g. Qed.

Lemma set_state_twice (g : game_t) (s t : game_state_t) :
  set_state (set_state g s) t = set_state g t.
Proof. reflexivity. Qed.

Lemma reset_frame_shape (fs : list (ptr * lt_destroy_t)) (old new : ptr) :
  forall d fs',
    reset_frame fs old new = Some (d, fs') ->
    In (old, d) fs /\ In (new, d) fs' /\ map snd fs' = map snd fs.
Proof.
  induction fs as [|[h d0] fs IH]; intros d fs' H; [discriminate|].
  simpl in H. destruct (h =? old) eqn:E.
  - apply Z.eqb_eq in E. injection H as <- <-. subst h.
    repeat split; now left.
  - destruct (reset_frame fs old new) as [[d1 fs1]|]; [|discriminate].
    injection H as <- <-.
    destruct (IH d1 fs1 eq_refl) as [H1 [H2 H3]].
    repeat split; simpl; [now right|now right|now rewrite H3].
Qed.

Lemma reset_frame_found (fs : list (ptr * lt_destroy_t)) (old new : ptr) :
  In old (map fst fs) -> exists d fs', reset_frame fs old new = Some (d, fs').
Proof.
  induction fs as [|[h d0] fs IH]; intros H; [contradiction|].
  simpl. destruct (h =? old) eqn:E; [eauto|].
  apply Z.eqb_neq in E. destruct H as [H | H]; [simpl in H; contradiction|].
  destruct (IH H) as (d & fs' & ->). eauto.
Qed.

Section MoreProperties.

Variable env : history -> call -> Z.
Variable sizeof_game_t : Z.

(** X1: while Paused, [game_event] makes no call and returns 0; nothing of
    the session changes but the state, which becomes Terminated on
    [SDL_QUIT], Running on the pause key, and stays Paused on anything
    else. *)
Theorem paused_event_table (g : game_t) (e : SDL_Event) (w : world) :
  state g = GAME_STATE_PAUSE ->
  exists s,
    game_event env g e w = Some ((0, set_state g s), w) /\
    (e = SDL_QUIT -> s = GAME_STATE_QUIT) /\
    (e = SDL_KEYDOWN SDLK_p -> s = GAME_STATE_RUNNING) /\
    (e <> SDL_QUIT -> e <> SDL_KEYDOWN SDLK_p -> s = GAME_STATE_PAUSE).
Proof.
  intros Hs. unfold game_event. rewrite Hs.
  destruct e as [ | sym | button | ]; simpl.
  - exists GAME_STATE_QUIT. repeat split; congruence.
  - destruct (sym =? SDLK_p) eqn:E.
    + apply Z.eqb_eq in E. subst sym. exists GAME_STATE_RUNNING.
      repeat split; congruence.
    + apply Z.eqb_neq in E. exists GAME_STATE_PAUSE.
      rewrite <- Hs, set_state_same. repeat split; congruence.
  - exists GAME_STATE_PAUSE. rewrite <- Hs, set_state_same.
    repeat split; congruence.
  - exists GAME_STATE_PAUSE. rewrite <- Hs, set_state_same.
    repeat split; congruence.
Qed.

(** X2: pressing the pause key twice in the Running state passes through
    Paused and gives back the session it started from; neither press makes a
    call. *)
Theorem pause_resume_round_trip (g : game_t) (w : world) :
  state g = GAME_STATE_RUNNING ->
  exists g1,
    game_event env g (SDL_KEYDOWN SDLK_p) w = Some ((0, g1), w) /\
    state g1 = GAME_STATE_PAUSE /\
    game_event env g1 (SDL_KEYDOWN SDLK_p) w = Some ((0, g), w).
Proof.
  intros Hs. exists (set_state g GAME_STATE_PAUSE).
  split; [|split; [reflexivity|]].
  - unfold game_event. rewrite Hs. reflexivity.
  - unfold game_event.
    change (state (set_state g GAME_STATE_PAUSE)) with GAME_STATE_PAUSE.
    cbv iota. unfold game_event_pause.
    change (SDLK_p =? SDLK_p) with true. cbv iota.
    rewrite set_state_twice, <- Hs, set_state_same. reflexivity.
Qed.

(** X3: while Paused, [game_input] issues no command to the player whatever
    keys are held: no call is made and 0 is returned. *)
Theorem paused_input_suppressed
        (g : game_t) (kb : Z -> Z) (stick : ptr) (w : world) :
  state g = GAME_STATE_PAUSE ->
  stick <> NULL ->
  game_input env g kb stick w = Some (0, w).
Proof.
  intros Hs Hn. unfold game_input. munfold.
  rewrite (nonnull_true _ Hn), Hs. reflexivity.
Qed.

(** X4: in the Running state the jump key and controller button 1 do the
    same thing: one [player_jump] on the player of the session, the session
    unchanged, 0 returned. *)
Theorem jump_key_and_button_agree (g : game_t) (w : world) :
  state g = GAME_STATE_RUNNING ->
  game_event env g (SDL_KEYDOWN SDLK_SPACE) w =
  Some ((0, g), log w (player_jump (player g)) 0) /\
  game_event env g (SDL_JOYBUTTONDOWN 1) w =
  game_event env g (SDL_KEYDOWN SDLK_SPACE) w.
Proof.
  intros Hs. unfold game_event. rewrite Hs. split; reflexivity.
Qed.

(** X5: whatever the state and the event, [game_event] keeps the player, the
    camera, the path buffer, the address of the ledger and the registered
    release operations in their order; the geometry handle and the ledger
    change at most on the reload key in the Running state. *)
Theorem event_keeps_handles
        (g : game_t) (e : SDL_Event) (w : world)
        (r : Z) (g' : game_t) (w' : world) :
  game_event env g e w = Some ((r, g'), w') ->
  player g' = player g /\
  camera g' = camera g /\
  level_file_path g' = level_file_path g /\
  lt_addr (lt g') = lt_addr (lt g) /\
  map snd (frames (lt g')) = map snd (frames (lt g)) /\
  (platforms g' <> platforms g \/ lt g' <> lt g ->
   state g = GAME_STATE_RUNNING /\ e = SDL_KEYDOWN SDLK_q).
Proof.
  intros H.
  assert (same : forall z w1,
             Some ((z, g), w1) = Some ((r, g'), w') ->
             player g' = player g /\ camera g' = camera g /\
             level_file_path g' = level_file_path g /\
             lt_addr (lt g') = lt_addr (lt g) /\
             map snd (frames (lt g')) = map snd (frames (lt g)) /\
             (platforms g' <> platforms g \/ lt g' <> lt g ->
              state g = GAME_STATE_RUNNING /\ e = SDL_KEYDOWN SDLK_q)).
  { intros z w1 E. injection E as _ <- _.
    repeat split; try reflexivity; destruct H0; congruence. }
  assert (restate : forall s z w1,
             Some ((z, set_state g s), w1) = Some ((r, g'), w') ->
             player g' = player g /\ camera g' = camera g /\
             level_file_path g' = level_file_path g /\
             lt_addr (lt g') = lt_addr (lt g) /\
             map snd (frames (lt g')) = map snd (frames (lt g)) /\
             (platforms g' <> platforms g \/ lt g' <> lt g ->
              state g = GAME_STATE_RUNNING /\ e = SDL_KEYDOWN SDLK_q)).
  { intros s z w1 E. injection E as _ <- _. simpl.
    repeat split; try reflexivity; destruct H0; congruence. }
  unfold game_event in H. destruct (state g) eqn:Hs.
  - (* Running *)
    destruct e as [ | sym | button | ]; simpl in H.
    + eapply restate; exact H.
    + destruct (Z.eq_dec sym SDLK_q) as [-> | Hq].
      * clear same restate.
        change (SDLK_q =? SDLK_SPACE) with false in H.
        change (SDLK_q =? SDLK_q) with true in H. cbv iota in H.
        unfold bind at 1 in H. unfold read_string in H.
        destruct (mem w (level_file_path g)) as [path|]; [|discriminate].
        unfold bind at 1 in H. unfold emit at 1 in H.
        unfold bind at 1 in H. unfold extern in H.
        unfold bind at 1 in H. unfold RESET_LT in H.
        match type of H with
        | context [answer env ?W ?c =? NULL] =>
            destruct (answer env W c =? NULL) eqn:En
        end.
        -- unfold ret at 1 in H. change (NULL =? NULL) with true in H.
           cbv iota in H. unfold bind, emit, ret in H.
           injection H as _ <- _. simpl. repeat split; reflexivity.
        -- match type of H with
           | context [reset_frame ?a ?b ?c] =>
               destruct (reset_frame a b c) as [[d fs]|] eqn:Er
           end.
           ++ unfold bind, emit, ret in H. rewrite En in H.
              injection H as _ <- _. simpl.
              destruct (reset_frame_shape _ _ _ _ _ Er) as [_ [_ Hm]].
              repeat split; try reflexivity. exact Hm.
           ++ unfold ret in H. rewrite En in H.
              injection H as _ <- _. simpl. repeat split; reflexivity.
      * assert (Eq : (sym =? SDLK_q) = false) by now apply Z.eqb_neq.
        rewrite Eq in H.
        destruct (sym =? SDLK_SPACE); [eapply same; exact H|].
        destruct (sym =? SDLK_p); [eapply restate|eapply same]; exact H.
    + destruct (button =? 1); eapply same; exact H.
    + eapply same; exact H.
  - (* Pause *)
    destruct e as [ | sym | button | ]; simpl in H.
    + eapply restate; exact H.
    + destruct (sym =? SDLK_p); [eapply restate|eapply same]; exact H.
    + eapply same; exact H.
    + eapply same; exact H.
  - eapply same; exact H.
  - eapply same; exact H.
Qed.

Lemma game_event_reload_unreadable (g : game_t) (w : world) :
  state g = GAME_STATE_RUNNING ->
  mem w (level_file_path g) = None ->
  game_event env g (SDL_KEYDOWN SDLK_q) w = None.
Proof.
  intros Hs Hm. unfold game_event. rewrite Hs. unfold game_event_running.
  change (SDLK_q =? SDLK_SPACE) with false.
  change (SDLK_q =? SDLK_q) with true. cbv iota.
  unfold bind at 1. unfold read_string. now rewrite Hm.
Qed.

(** X6: from the Running or the Paused state, the session is over after
    [game_event] exactly when the event was [SDL_QUIT] or the call returned
    -1 (a reload that failed). *)
Theorem termination_causes
        (g : game_t) (e : SDL_Event) (w : world)
        (r : Z) (g' : game_t) (w' : world) :
  state g = GAME_STATE_RUNNING \/ state g = GAME_STATE_PAUSE ->
  game_event env g e w = Some ((r, g'), w') ->
  (is_game_over g' = 1 <-> e = SDL_QUIT \/ r = -1).
Proof.
  intros Hst H.
  assert (stay : forall z w1,
             Some ((z, g), w1) = Some ((r, g'), w') ->
             z = 0 -> e <> SDL_QUIT ->
             (is_game_over g' = 1 <-> e = SDL_QUIT \/ r = -1)).
  { intros z w1 E Hz He. injection E as <- <- _. subst z.
    rewrite is_game_over_quit. split.
    - intros Hq. destruct Hst; congruence.
    - intros [?|?]; [contradiction|discriminate]. }
  assert (move : forall s w1,
             Some ((0, set_state g s), w1) = Some ((r, g'), w') ->
             (s = GAME_STATE_QUIT <-> e = SDL_QUIT) ->
             (is_game_over g' = 1 <-> e = SDL_QUIT \/ r = -1)).
  { intros s w1 E Hs. injection E as <- <- _.
    rewrite is_game_over_quit. simpl. rewrite Hs. split; [now left|].
    intros [?|?]; [assumption|discriminate]. }
  pose proof H as H0.
  unfold game_event in H. destruct Hst as [Hs | Hs]; rewrite Hs in H.
  - destruct e as [ | sym | button | ]; simpl in H.
    + eapply move; [exact H|tauto].
    + destruct (Z.eq_dec sym SDLK_q) as [-> | Hq].
      * clear stay move H. rename H0 into H.
        destruct (mem w (level_file_path g)) as [path|] eqn:Hm.
        -- rewrite (game_event_reload env g w path Hs Hm) in H.
           cbv zeta in H.
           match type of H with
           | context [if ?b then _ else _] => destruct b
           end.
           ++ injection H as <- <- _. rewrite is_game_over_quit. simpl.
              split; [now right|reflexivity].
           ++ match type of H with
              | context [reset_frame ?a ?b ?c] =>
                  destruct (reset_frame a b c) as [[d fs]|]
              end; injection H as <- <- _; rewrite is_game_over_quit;
                simpl; rewrite Hs;
                (split; [discriminate|intros [?|?]; discriminate]).
        -- rewrite (game_event_reload_unreadable g w Hs Hm) in H.
           discriminate.
      * assert (Eq : (sym =? SDLK_q) = false) by now apply Z.eqb_neq.
        rewrite Eq in H.
        destruct (sym =? SDLK_SPACE);
          [eapply stay; [exact H|reflexivity|discriminate]|].
        destruct (sym =? SDLK_p).
        -- eapply move; [exact H|]. split; discriminate.
        -- eapply stay; [exact H|reflexivity|discriminate].
    + destruct (button =? 1);
        (eapply stay; [exact H|reflexivity|discriminate]).
    + eapply stay; [exact H|reflexivity|discriminate].
  - destruct e as [ | sym | button | ]; simpl in H.
    + eapply move; [exact H|tauto].
    + destruct (sym =? SDLK_p).
      * eapply move; [exact H|]. split; discriminate.
      * eapply stay; [exact H|reflexivity|discriminate].
    + eapply stay; [exact H|reflexivity|discriminate].
    + eapply stay; [exact H|reflexivity|discriminate].
Qed.

(** X7: on a session that is not over, [game_render] returns 0 or -1.  It
    returns 0 exactly when the frame was presented, and then the calls are,
    in order, draw colour (0,0,0,255), clear, player, platforms, present,
    none of the first four having failed.  It returns -1 at the first
    drawing call that fails: every call before it succeeded, and nothing
    follows it but [throw_error(ERROR_TYPE_SDL2)] when the failing call was
    one of SDL's own. *)
Theorem render_outcomes (g : game_t) (rd : ptr) (w : world) :
  state g <> GAME_STATE_QUIT ->
  rd <> NULL ->
  exists r w' evs,
    game_render env g rd w = Some (r, w') /\
    hist w' = hist w ++ evs /\
    (r = 0 \/ r = -1) /\
    (r = 0 <-> In (SDL_RenderPresent rd, 0) evs) /\
    (r = 0 ->
     exists r1 r2 r3 r4,
       (0 <= r1 /\ 0 <= r2 /\ 0 <= r3 /\ 0 <= r4) /\
       evs = [(SDL_SetRenderDrawColor rd 0 0 0 255, r1);
              (SDL_RenderClear rd, r2);
              (render_player (player g) rd (camera g), r3);
              (render_platforms (platforms g) rd (camera g), r4);
              (SDL_RenderPresent rd, 0)]) /\
    (r = -1 ->
     exists pre c z,
       evs = pre ++ (c, z) ::
                 (if is_sdl_draw c
                  then [(throw_error ERROR_TYPE_SDL2, 0)] else []) /\
       is_draw c = true /\ z < 0 /\
       Forall (fun e => is_draw (fst e) = true /\ 0 <= snd e) pre).
Proof.
  intros Hs Hn.
  assert (Eq : game_state_eqb (state g) GAME_STATE_QUIT = false).
  { destruct (game_state_eqb (state g) GAME_STATE_QUIT) eqn:E; [|reflexivity].
    apply game_state_eqb_eq in E. contradiction. }
  unfold game_render. munfold. rewrite (nonnull_true _ Hn), Eq.
  set (c1 := SDL_SetRenderDrawColor rd 0 0 0 255).
  set (c2 := SDL_RenderClear rd).
  set (c3 := render_player (player g) rd (camera g)).
  set (c4 := render_platforms (platforms g) rd (camera g)).
  assert (failed : forall (pre : history) (c : call) (z : Z) (w' : world),
             hist w' = hist w ++ pre ++ (c, z) ::
                            (if is_sdl_draw c
                             then [(throw_error ERROR_TYPE_SDL2, 0)] else []) ->
             is_draw c = true -> z < 0 ->
             Forall (fun e => is_draw (fst e) = true /\ 0 <= snd e) pre ->
             exists evs,
               hist w' = hist w ++ evs /\
               (-1 = 0 \/ -1 = -1) /\
               (-1 = 0 <-> In (SDL_RenderPresent rd, 0) evs) /\
               (-1 = 0 ->
                exists q1 q2 q3 q4,
                  (0 <= q1 /\ 0 <= q2 /\ 0 <= q3 /\ 0 <= q4) /\
                  evs = [(c1, q1); (c2, q2); (c3, q3); (c4, q4);
                         (SDL_RenderPresent rd, 0)]) /\
               (-1 = -1 ->
                exists pre' c' z',
                  evs = pre' ++ (c', z') ::
                             (if is_sdl_draw c'
                              then [(throw_error ERROR_TYPE_SDL2, 0)]
                              else []) /\
                  is_draw c' = true /\ z' < 0 /\
                  Forall (fun e => is_draw (fst e) = true /\ 0 <= snd e) pre')).
  { intros pre c z w' Hh Hc Hz Hpre. eexists. split; [exact Hh|].
    split; [now right|]. split; [|split; [discriminate|]].
    - split; [discriminate|]. intros HIn. exfalso.
      apply in_app_or in HIn. destruct HIn as [HIn | HIn].
      + rewrite Forall_forall in Hpre. apply Hpre in HIn.
        simpl in HIn. destruct HIn; discriminate.
      + destruct HIn as [HIn | HIn].
        * injection HIn as -> _. discriminate.
        * destruct (is_sdl_draw c); [|contradiction].
          destruct HIn as [HIn | []]. discriminate.
    - intros _. exists pre, c, z. tauto. }
  set (r1 := answer env w c1).
  set (w1 := log w c1 r1).
  destruct (r1 <? 0) eqn:E1.
  { apply Z.ltb_lt in E1.
    destruct (failed [] c1 r1 (log w1 (throw_error ERROR_TYPE_SDL2) 0))
      as (evs & Hev);
      [simpl; now rewrite <- !app_assoc|reflexivity|exact E1|constructor|].
    exists (-1), (log w1 (throw_error ERROR_TYPE_SDL2) 0), evs.
    split; [reflexivity|exact Hev]. }
  apply Z.ltb_ge in E1.
  set (r2 := answer env w1 c2).
  set (w2 := log w1 c2 r2).
  destruct (r2 <? 0) eqn:E2.
  { apply Z.ltb_lt in E2.
    destruct (failed [(c1, r1)] c2 r2
                     (log w2 (throw_error ERROR_TYPE_SDL2) 0))
      as (evs & Hev);
      [simpl; now rewrite <- !app_assoc|reflexivity|exact E2
      |repeat constructor; exact E1|].
    exists (-1), (log w2 (throw_error ERROR_TYPE_SDL2) 0), evs.
    split; [reflexivity|exact Hev]. }
  apply Z.ltb_ge in E2.
  set (r3 := answer env w2 c3).
  set (w3 := log w2 c3 r3).
  destruct (r3 <? 0) eqn:E3.
  { apply Z.ltb_lt in E3.
    destruct (failed [(c1, r1); (c2, r2)] c3 r3 w3) as (evs & Hev);
      [simpl; now rewrite <- !app_assoc|reflexivity|exact E3
      |repeat constructor; assumption|].
    exists (-1), w3, evs. split; [reflexivity|exact Hev]. }
  apply Z.ltb_ge in E3.
  set (r4 := answer env w3 c4).
  destruct (r4 <? 0) eqn:E4.
  { apply Z.ltb_lt in E4.
    destruct (failed [(c1, r1); (c2, r2); (c3, r3)] c4 r4 (log w3 c4 r4))
      as (evs & Hev);
      [simpl; now rewrite <- !app_assoc|reflexivity|exact E4
      |repeat constructor; assumption|].
    exists (-1), (log w3 c4 r4), evs. split; [reflexivity|exact Hev]. }
  apply Z.ltb_ge in E4.
  exists 0. eexists.
  exists [(c1, r1); (c2, r2); (c3, r3); (c4, r4); (SDL_RenderPresent rd, 0)].
  split; [reflexivity|]. split; [simpl; now rewrite <- !app_assoc|].
  split; [now left|]. split; [|split].
  - split; [intros _; simpl; tauto|reflexivity].
  - intros _. exists r1, r2, r3, r4. tauto.
  - discriminate.
Qed.

(** X16: in the Running state [game_input] reads the joystick only when it
    has to: not at all when key A or key D is held, once when the first
    reading of axis 0 is negative, twice otherwise. *)
Theorem input_axis_reads (g : game_t) (kb : Z -> Z) (stick : ptr) (w : world) :
  state g = GAME_STATE_RUNNING ->
  stick <> NULL ->
  exists w' evs,
    game_input env g kb stick w = Some (0, w') /\
    hist w' = hist w ++ evs /\
    let reads := List.length (filter is_axis_read (map fst evs)) in
    (kb SDL_SCANCODE_A <> 0 \/ kb SDL_SCANCODE_D <> 0 -> reads = 0%nat) /\
    (kb SDL_SCANCODE_A = 0 -> kb SDL_SCANCODE_D = 0 ->
     (answer env w (SDL_JoystickGetAxis stick 0) < 0 -> reads = 1%nat) /\
     (0 <= answer env w (SDL_JoystickGetAxis stick 0) -> reads = 2%nat)).
Proof.
  intros Hs Hn.
  unfold game_input. munfold. rewrite (nonnull_true _ Hn), Hs. simpl.
  destruct (kb SDL_SCANCODE_A =? 0) eqn:EA; simpl.
  2:{ apply Z.eqb_neq in EA.
      eexists; exists [(player_move_left (player g), 0)].
      split; [reflexivity|]. split; [reflexivity|]. simpl.
      split; [reflexivity|]. intros; contradiction. }
  apply Z.eqb_eq in EA.
  destruct (kb SDL_SCANCODE_D =? 0) eqn:ED; simpl.
  2:{ apply Z.eqb_neq in ED.
      eexists; exists [(player_move_right (player g), 0)].
      split; [reflexivity|]. split; [reflexivity|]. simpl.
      split; [reflexivity|]. intros; contradiction. }
  apply Z.eqb_eq in ED.
  set (axis := SDL_JoystickGetAxis stick 0).
  set (a1 := answer env w axis).
  destruct (a1 <? 0) eqn:E1.
  { apply Z.ltb_lt in E1.
    eexists; exists [(axis, a1); (player_move_left (player g), 0)].
    split; [reflexivity|]. split; [simpl; now rewrite <- app_assoc|].
    simpl. split; [intros [?|?]; contradiction|].
    intros _ _. split; [reflexivity|lia]. }
  apply Z.ltb_ge in E1.
  set (a2 := answer env (log w axis a1) axis).
  destruct (0 <? a2) eqn:E2.
  { eexists; exists [(axis, a1); (axis, a2);
                     (player_move_right (player g), 0)].
    split; [reflexivity|]. split; [simpl; now rewrite <- !app_assoc|].
    simpl. split; [intros [?|?]; contradiction|].
    intros _ _. split; [lia|reflexivity]. }
  eexists; exists [(axis, a1); (axis, a2); (player_stop (player g), 0)].
  split; [reflexivity|]. split; [simpl; now rewrite <- !app_assoc|].
  simpl. split; [intros [?|?]; contradiction|].
  intros _ _. split; [lia|reflexivity].
Qed.

(** X8: the asserts come first, whatever the state, even when the session is
    over: [game_update] with an elapsed time that is not positive,
    [game_input] with a null joystick and [game_render] with a null renderer
    abort instead of returning. *)
Theorem contract_violations_abort (g : game_t) (w : world) :
  (forall dt, dt <= 0 -> game_update g dt w = None) /\
  (forall kb, game_input env g kb NULL w = None) /\
  game_render env g NULL w = None.
Proof.
  repeat split.
  intros dt Hdt. unfold game_update. munfold.
  assert (E : (0 <? dt) = false) by now apply Z.ltb_ge.
  now rewrite E.
Qed.

(** X9: pausing does not change what is drawn: on a session that is not
    over, [game_render] does the same whatever the state is set to, as long
    as it is not Terminated. *)
Theorem render_ignores_pause
        (g : game_t) (s : game_state_t) (rd : ptr) (w : world) :
  state g <> GAME_STATE_QUIT ->
  s <> GAME_STATE_QUIT ->
  game_render env (set_state g s) rd w = game_render env g rd w.
Proof.
  intros Hg Hs. unfold game_render. simpl.
  destruct (state g); destruct s; try contradiction; reflexivity.
Qed.

(** X10: in the Running state, when the loader succeeds on a reload and the
    current geometry handle is registered, [game_event] returns 0 and stays
    Running; the new handle is loaded first, then the old one is released,
    once, through the release operation it was registered with; the session
    and the ledger slot take the new handle, and the release operations of
    the ledger keep their order. *)
Theorem successful_reload (g : game_t) (w : world) (path : string) :
  state g = GAME_STATE_RUNNING ->
  mem w (level_file_path g) = Some path ->
  In (platforms g) (map fst (frames (lt g))) ->
  let new := answer env (log w (printf fmt_reloading path) 0)
                    (load_platforms_from_file path) in
  new <> NULL ->
  exists d g' w',
    game_event env g (SDL_KEYDOWN SDLK_q) w = Some ((0, g'), w') /\
    state g' = GAME_STATE_RUNNING /\
    platforms g' = new /\
    In (platforms g, d) (frames (lt g)) /\
    In (new, d) (frames (lt g')) /\
    map snd (frames (lt g')) = map snd (frames (lt g)) /\
    hist w' = hist w ++ [(printf fmt_reloading path, 0);
                         (load_platforms_from_file path, new);
                         (d (platforms g), 0)].
Proof.
  intros Hs Hm Hreg new Hnew.
  rewrite (game_event_reload env g w path Hs Hm). cbv zeta. fold new.
  assert (En : (new =? NULL) = false) by now apply Z.eqb_neq.
  rewrite En.
  destruct (reset_frame_found (frames (lt g)) (platforms g) new Hreg)
    as (d & fs & Er).
  rewrite Er.
  destruct (reset_frame_shape _ _ _ _ _ Er) as [H1 [H2 H3]].
  exists d. do 2 eexists. split; [reflexivity|]. simpl.
  repeat split; try assumption.
  now rewrite <- !app_assoc.
Qed.

End MoreProperties.

(** ** The lifetime of the objects of a session *)

Lemma live_app (h evs : history) :
  live (h ++ evs) = fold_left live_step evs (live h).
Proof. unfold live. apply fold_left_app. Qed.

Lemma live_nonnull (h : history) : ~ In NULL (live h).
Proof. apply live_step_nonnull. intros []. Qed.

Lemma in_remove_iff (l : list Z) (x y : Z) :
  In x (remove Z.eq_dec y l) <-> In x l /\ x <> y.
Proof.
  split.
  - apply in_remove.
  - intros [H1 H2]. now apply in_in_remove.
Qed.

Lemma known_destroy_call (d : lt_destroy_t) (p : ptr) :
  known_destroy d ->
  is_alloc (d p) = false /\ released (d p) = Some p /\ uses (d p) = [p] /\
  (forall m q, q <> p -> mem_after (d p) m q = m q).
Proof.
  intros [-> | [-> | [-> | ->]]]; simpl; repeat split; try reflexivity.
  intros m q Hq. unfold mem_drop.
  destruct (q =? p) eqn:E; [|reflexivity].
  apply Z.eqb_eq in E. contradiction.
Qed.

Lemma live_step_release (d : lt_destroy_t) (p : ptr) (r : Z) (acc : list ptr) :
  known_destroy d ->
  live_step acc (d p, r) = remove Z.eq_dec p acc.
Proof.
  intros Hd. destruct (known_destroy_call d p Hd) as (Ha & Hr & _).
  unfold live_step. now rewrite Ha, Hr.
Qed.

Lemma live_step_neutral (c : call) (r : Z) (acc : list ptr) :
  neutral c = true -> live_step acc (c, r) = acc.
Proof.
  unfold neutral. intros H. apply andb_true_iff in H. destruct H as [Ha Hr].
  apply negb_true_iff in Ha. unfold live_step. rewrite Ha.
  destruct (released c); [discriminate|reflexivity].
Qed.

Lemma safe_from_app (e1 : history) : forall acc e2,
  safe_from acc (e1 ++ e2) <->
  safe_from acc e1 /\ safe_from (fold_left live_step e1 acc) e2.
Proof.
  induction e1 as [|e e1 IH]; intros acc e2; simpl.
  - tauto.
  - rewrite IH. tauto.
Qed.

Lemma safe_between_refl (w : world) : safe_between w w.
Proof. exists []. rewrite app_nil_r. now split. Qed.

Lemma safe_between_same_hist (w w' : world) :
  hist w' = hist w -> safe_between w w'.
Proof. intros H. exists []. rewrite app_nil_r. now split. Qed.

Lemma safe_between_trans (w1 w2 w3 : world) :
  safe_between w1 w2 -> safe_between w2 w3 -> safe_between w1 w3.
Proof.
  intros (e1 & H1 & S1) (e2 & H2 & S2). exists (e1 ++ e2). split.
  - rewrite H2, H1. now rewrite app_assoc.
  - apply safe_from_app. split; [exact S1|].
    rewrite <- live_app, <- H1. exact S2.
Qed.

Lemma safe_between_log (w : world) (c : call) (r : Z) :
  (forall p, In p (uses c) -> In p (live (hist w))) ->
  safe_between w (log w c r).
Proof. intros H. exists [(c, r)]. simpl. tauto. Qed.

Lemma live_log (w : world) (c : call) (r : Z) :
  live (hist (log w c r)) = live_step (live (hist w)) (c, r).
Proof. simpl. apply live_snoc. Qed.

(** *** Tame computations *)

Lemma tame_ret (P : list ptr) {A : Type} (a : A) : tame P (ret a).
Proof.
  intros w. exists a, w, []. rewrite app_nil_r. repeat split. constructor.
Qed.

Lemma tame_emit (P : list ptr) (c : call) :
  neutral c = true -> incl (uses c) P -> tame P (emit c).
Proof.
  intros Hc Hu w. exists tt, (log w c 0), [(c, 0)].
  repeat split.
  - simpl. destruct c; try reflexivity; discriminate.
  - repeat constructor; assumption.
Qed.

Lemma tame_bind (P : list ptr) {A B : Type} (m : M A) (k : A -> M B) :
  tame P m -> (forall a, tame P (k a)) -> tame P (bind m k).
Proof.
  intros Hm Hk w.
  destruct (Hm w) as (a & w1 & evs1 & E1 & Hh1 & Hm1 & Hn1).
  destruct (Hk a w1) as (b & w2 & evs2 & E2 & Hh2 & Hm2 & Hn2).
  exists b, w2, (evs1 ++ evs2). unfold bind. rewrite E1.
  repeat split.
  - exact E2.
  - rewrite Hh2, Hh1. now rewrite app_assoc.
  - congruence.
  - apply Forall_app. now split.
Qed.

Lemma tame_safe (P : list ptr) {A : Type} (m : M A) (w : world) :
  tame P m ->
  (forall p, In p P -> In p (live (hist w))) ->
  exists a w',
    m w = Some (a, w') /\
    safe_between w w' /\
    live (hist w') = live (hist w) /\
    mem w' = mem w.
Proof.
  intros Hm HP. destruct (Hm w) as (a & w' & evs & E & Hh & Hmem & Hn).
  exists a, w'. split; [exact E|].
  assert (Hs : safe_from (live (hist w)) evs /\
               fold_left live_step evs (live (hist w)) = live (hist w)).
  { clear E Hh. generalize (live (hist w)) HP. clear HP.
    induction Hn as [|[c r] evs [Hc Hu] _ IH]; intros acc HP;
      cbn [safe_from fold_left fst].
    - now split.
    - simpl in Hc, Hu. rewrite (live_step_neutral c r acc Hc).
      destruct (IH acc HP) as [IH1 IH2].
      repeat split; try assumption.
      intros p Hp. apply HP, Hu, Hp. }
  destruct Hs as [Hs Hl].
  split; [exists evs; now split|]. split; [|exact Hmem].
  now rewrite Hh, live_app.
Qed.

Section Lifetime.

Variable env : history -> call -> Z.
Variable sizeof_game_t : Z.
Hypothesis env_fresh : allocator_fresh env.

Lemma tame_extern (P : list ptr) (c : call) :
  neutral c = true -> incl (uses c) P -> tame P (extern env c).
Proof.
  intros Hc Hu w. exists (answer env w c), (log w c (answer env w c)),
                    [(c, answer env w c)].
  repeat split.
  - simpl. destruct c; try reflexivity; discriminate.
  - repeat constructor; assumption.
Qed.

Ltac tame_steps :=
  repeat first
         [ apply tame_ret
         | apply tame_emit; [reflexivity|intros ? ?; simpl in *; tauto]
         | apply tame_extern; [reflexivity|intros ? ?; simpl in *; tauto]
         | apply tame_bind; [|intros ?]
         | match goal with
           | |- tame _ (if ?b then _ else _) => destruct b
           end ].

Lemma game_input_tame (g : game_t) (kb : Z -> Z) (stick : ptr) :
  stick <> NULL ->
  tame [player g; platforms g; camera g] (game_input env g kb stick).
Proof.
  intros Hn. unfold game_input. rewrite (nonnull_true _ Hn).
  change (assert true) with (ret tt). tame_steps.
Qed.

Lemma game_update_tame (g : game_t) (dt : Z) :
  0 < dt -> tame [player g; platforms g; camera g] (game_update g dt).
Proof.
  intros Hdt. unfold game_update. apply Z.ltb_lt in Hdt. rewrite Hdt.
  change (assert true) with (ret tt). tame_steps.
Qed.

Lemma game_render_tame (g : game_t) (rd : ptr) :
  rd <> NULL ->
  tame [player g; platforms g; camera g] (game_render env g rd).
Proof.
  intros Hn. unfold game_render. rewrite (nonnull_true _ Hn).
  change (assert true) with (ret tt). tame_steps.
Qed.

(** *** The ledger owns the objects of the session *)

Lemma ledger_inv_live (L0 : list ptr) (l : lt_t) (w w' : world) :
  live (hist w') = live (hist w) ->
  ledger_inv L0 l w -> ledger_inv L0 l w'.
Proof.
  intros Hl (H1 & H2 & H3 & H4). unfold ledger_inv. rewrite Hl. tauto.
Qed.

Lemma create_lt_inv (w : world) (olt : option lt_t) (w' : world) :
  create_lt env w = Some (olt, w') ->
  safe_between w w' /\
  mem w' = mem w /\
  match olt with
  | None => live (hist w') = live (hist w)
  | Some l => frames l = [] /\ ledger_inv (live (hist w)) l w'
  end.
Proof.
  unfold create_lt, bind, extern, ret. intros H.
  pose proof (env_fresh (hist w) lt_alloc eq_refl) as F.
  fold (answer env w lt_alloc) in F.
  assert (Hs : safe_between w (log w lt_alloc (answer env w lt_alloc))).
  { apply safe_between_log. intros p []. }
  destruct (answer env w lt_alloc =? NULL) eqn:E;
    injection H as <- <-; (split; [exact Hs|]); (split; [reflexivity|]).
  - rewrite live_log. simpl. now rewrite E.
  - split; [reflexivity|]. unfold ledger_inv. rewrite live_log. simpl.
    rewrite E. repeat split.
    + constructor; [intros []|constructor].
    + intros [-> | H]; [left; now left|now right].
    + intros [[-> | []] | H]; [now left|now right].
    + intros x [<- | []]. exact F.
    + constructor.
Qed.

Lemma alloc_push_bind {A : Type} (c : call) (l : lt_t) (d : lt_destroy_t)
      (K : ptr * lt_t -> M A) (w : world) :
  (x <- extern env c ;; r <- PUSH_LT env l x d ;; K r) w =
  match (x <- extern env c ;; PUSH_LT env l x d) w with
  | Some (r, w') => K r w'
  | None => None
  end.
Proof. reflexivity. Qed.

(** One allocation followed by its registration. *)
Lemma alloc_push_inv (L0 : list ptr) (c : call) (d : lt_destroy_t)
      (l : lt_t) (w : world) (x' : ptr) (l' : lt_t) (w' : world) :
  is_alloc c = true ->
  uses c = [] ->
  known_destroy d ->
  ledger_inv L0 l w ->
  (x <- extern env c ;; PUSH_LT env l x d) w = Some ((x', l'), w') ->
  safe_between w w' /\
  mem w' = mem w /\
  ((x' = NULL /\ l' = l /\
    (ledger_inv L0 l w' \/ exists h, env h (lt_grow (lt_addr l)) = 0)) \/
   (x' <> NULL /\ lt_addr l' = lt_addr l /\
    frames l' = frames l ++ [(x', d)] /\ ledger_inv L0 l' w')).
Proof.
  intros Hc Hu Hd Hinv H.
  pose proof Hinv as (N & HL & HD & HK).
  unfold bind at 1 in H. unfold extern at 1 in H.
  set (x := answer env w c) in *.
  set (w1 := log w c x) in *.
  pose proof (env_fresh (hist w) c Hc) as F.
  fold (answer env w c) in F. fold x in F.
  assert (Hm1 : mem w1 = mem w).
  { unfold w1. simpl. destruct c; try reflexivity; discriminate. }
  assert (Hs1 : safe_between w w1).
  { apply safe_between_log. rewrite Hu. intros p []. }
  assert (Hl1 : live (hist w1) =
                if x =? NULL then live (hist w) else x :: live (hist w)).
  { unfold w1. rewrite live_log. simpl. now rewrite Hc. }
  unfold PUSH_LT in H.
  destruct (x =? NULL) eqn:Ex.
  - (* the allocation failed *)
    unfold ret in H. injection H as <- <- <-.
    split; [exact Hs1|]. split; [exact Hm1|]. left.
    split; [reflexivity|]. split; [reflexivity|]. left.
    now apply (ledger_inv_live L0 l w w1).
  - apply Z.eqb_neq in Ex.
    unfold bind, extern in H.
    set (la := lt_addr l) in *.
    set (k := answer env w1 (lt_grow la)) in *.
    set (w2 := log w1 (lt_grow la) k) in *.
    assert (Hla : In la (live (hist w1))).
    { rewrite Hl1. right. apply HL. left. now left. }
    assert (Hs2 : safe_between w w2).
    { apply (safe_between_trans w w1 w2); [exact Hs1|].
      apply safe_between_log. intros p [<- | []]. exact Hla. }
    assert (Hm2 : mem w2 = mem w) by exact Hm1.
    assert (Hl2 : live (hist w2) = x :: live (hist w)).
    { unfold w2. rewrite live_log, Hl1. reflexivity. }
    destruct (k =? 0) eqn:Ek.
    + (* the ledger could not grow *)
      apply Z.eqb_eq in Ek. unfold ret in H. injection H as <- <- <-.
      split; [exact Hs2|]. split; [exact Hm2|]. left.
      split; [reflexivity|]. split; [reflexivity|]. right.
      exists (hist w1). exact Ek.
    + unfold ret in H. injection H as <- <- <-.
      split; [exact Hs2|]. split; [exact Hm2|]. right.
      split; [exact Ex|]. split; [reflexivity|]. split; [reflexivity|].
      unfold ledger_inv. cbn [lt_addr frames]. rewrite Hl2, map_app.
      cbn [map fst].
      assert (Hx : ~ In x (la :: map fst (frames l))).
      { intros Hin. apply F. apply HL. now left. }
      repeat split.
      * change (la :: map fst (frames l) ++ [x])
          with ((la :: map fst (frames l)) ++ [x]).
        apply NoDup_app; [exact N|repeat constructor; intros []|].
        intros y Hy1 [<- | []]. contradiction.
      * intros [<- | Hy].
        -- left. right. apply in_or_app. right. now left.
        -- apply HL in Hy. destruct Hy as [[Hy | Hy] | Hy].
           ++ left. now left.
           ++ left. right. apply in_or_app. now left.
           ++ now right.
      * intros [[Hy | Hy] | Hy].
        -- right. apply HL. left. now left.
        -- apply in_app_or in Hy. destruct Hy as [Hy | [Hy | []]].
           ++ right. apply HL. left. now right.
           ++ now left.
        -- right. apply HL. now right.
      * intros y [Hy | Hy].
        -- apply HD. now left.
        -- apply in_app_or in Hy. destruct Hy as [Hy | [<- | []]].
           ++ apply HD. now right.
           ++ intros Hin. apply F. apply HL. now right.
      * apply Forall_app. split; [exact HK|].
        constructor; [exact Hd|constructor].
Qed.

Lemma release_frames_safe (fs : list (ptr * lt_destroy_t)) :
  forall (w : world) (S : list ptr),
    NoDup (map fst fs) ->
    (forall x, In x (live (hist w)) <-> In x (map fst fs) \/ In x S) ->
    (forall x, In x (map fst fs) -> ~ In x S) ->
    Forall (fun f => known_destroy (snd f)) fs ->
    exists w',
      release_frames fs w = Some (tt, w') /\
      safe_between w w' /\
      (forall x, In x (live (hist w')) <-> In x S).
Proof.
  induction fs as [|[h d] fs IH]; intros w S N HL HD HK.
  - exists w. split; [reflexivity|]. split; [apply safe_between_refl|].
    intros x. rewrite HL. simpl. tauto.
  - simpl in N. inversion N as [|a b Hnotin N']; subst.
    inversion HK as [|a b Hd HK']; subst. simpl in Hd.
    destruct (IH w (h :: S)) as (w1 & E1 & S1 & L1).
    + exact N'.
    + intros x. rewrite HL. simpl. tauto.
    + intros x Hx [<- | Hs]; [contradiction|].
      apply (HD x); [now right|exact Hs].
    + exact HK'.
    + exists (log w1 (d h) 0). cbn [release_frames]. unfold bind.
      rewrite E1. unfold emit.
      split; [reflexivity|]. split.
      * apply (safe_between_trans w w1); [exact S1|].
        apply safe_between_log.
        destruct (known_destroy_call d h Hd) as (_ & _ & -> & _).
        intros p [<- | []]. apply L1. now left.
      * intros x. rewrite live_log, (live_step_release d h 0 _ Hd).
        rewrite in_remove_iff, L1. simpl. split.
        -- intros [[<- | Hx] Hne]; [contradiction|exact Hx].
        -- intros Hx. split; [now right|].
           intros ->. apply (HD h); [now left|exact Hx].
Qed.

(** Releasing the whole ledger gives back everything the session held. *)
Lemma RETURN_LT_safe {A : Type} (L0 : list ptr) (l : lt_t) (a : A) (w : world) :
  ledger_inv L0 l w ->
  exists w',
    RETURN_LT l a w = Some (a, w') /\
    safe_between w w' /\
    (forall x, In x (live (hist w')) <-> In x L0).
Proof.
  intros (N & HL & HD & HK).
  inversion N as [|a0 b Hnotin N']; subst.
  destruct (release_frames_safe (frames l) w (lt_addr l :: L0))
    as (w1 & E1 & S1 & L1).
  - exact N'.
  - intros x. rewrite HL. simpl. tauto.
  - intros x Hx [<- | Hs]; [contradiction|].
    apply (HD x); [now right|exact Hs].
  - exact HK.
  - exists (log w1 (lt_free (lt_addr l)) 0).
    unfold RETURN_LT, release_all, bind. rewrite E1. unfold ret, emit.
    cbn [lt_addr].
    split; [reflexivity|]. split.
    + apply (safe_between_trans w w1); [exact S1|].
      apply safe_between_log. intros p [<- | []]. apply L1. now left.
    + intros x. rewrite live_log. cbn [live_step is_alloc released].
      rewrite in_remove_iff, L1. simpl.
      split.
      * intros [[<- | Hx] Hne]; [contradiction|exact Hx].
      * intros Hx. split; [now right|].
        intros ->. apply (HD (lt_addr l)); [now left|exact Hx].
Qed.

(** *** Construction, seen from the heap *)

Lemma RETURN_LT_None {A : Type} (l : lt_t) (w : world)
      (res : option A) (w' : world) :
  RETURN_LT l None w = Some (res, w') -> res = None.
Proof. rewrite RETURN_LT_logs. now intros [= <- _]. Qed.

Lemma construction_fails (L0 : list ptr) (l : lt_t) (w0 w : world)
      (res : option game_t) (w' : world) :
  ledger_inv L0 l w ->
  safe_between w0 w ->
  RETURN_LT l None w = Some (res, w') ->
  res = None /\ safe_between w0 w' /\
  (forall x, In x (live (hist w')) <-> In x L0).
Proof.
  intros Hinv Hs H.
  destruct (RETURN_LT_safe L0 l (@None game_t) w Hinv) as (w1 & E & S1 & L1).
  rewrite E in H. injection H as <- <-.
  split; [reflexivity|]. split; [|exact L1].
  now apply (safe_between_trans w0 w w1).
Qed.

Lemma throw_then (e : error_type_t) {A : Type} (m : M A) (w : world) :
  (emit (throw_error e) ;;; m) w = m (log w (throw_error e) 0).
Proof. reflexivity. Qed.

Lemma ledger_inv_throw (L0 : list ptr) (l : lt_t) (w0 w : world)
      (e : error_type_t) :
  ledger_inv L0 l w -> safe_between w0 w ->
  ledger_inv L0 l (log w (throw_error e) 0) /\
  safe_between w0 (log w (throw_error e) 0).
Proof.
  intros Hinv Hs. split.
  - apply (ledger_inv_live L0 l w); [|exact Hinv]. now rewrite live_log.
  - apply (safe_between_trans w0 w); [exact Hs|].
    apply safe_between_log. intros p [].
Qed.

Ltac step_alloc H Hinv x l w S Mm Out :=
  rewrite alloc_push_bind in H;
  match type of H with
  | match ?m ?w0 with _ => _ end = _ =>
      destruct (m w0) as [[[x l] w]|] eqn:Out; [|discriminate H]
  end;
  eapply alloc_push_inv in Out;
  [ | reflexivity | reflexivity
    | unfold known_destroy; tauto | exact Hinv ];
  destruct Out as (S & Mm & Out);
  cbv beta iota in H.

Lemma create_game_lifetime (path : string) (w0 : world)
      (res : option game_t) (w' : world) :
  create_game env sizeof_game_t path w0 = Some (res, w') ->
  match res with
  | Some g =>
      safe_between w0 w' /\
      lifetime_inv path (live (hist w0)) g w' /\
      state g = GAME_STATE_RUNNING
  | None =>
      (forall h l, env h (lt_grow l) <> 0) ->
      safe_between w0 w' /\
      (forall x, In x (live (hist w')) <-> In x (live (hist w0)))
  end.
Proof.
  intros H. set (L0 := live (hist w0)).
  assert (leak : forall l w1,
             (exists h, env h (lt_grow (lt_addr l)) = 0) ->
             RETURN_LT l None w1 = Some (res, w') ->
             match res with
             | Some g =>
                 safe_between w0 w' /\ lifetime_inv path L0 g w' /\
                 state g = GAME_STATE_RUNNING
             | None =>
                 (forall h l, env h (lt_grow l) <> 0) ->
                 safe_between w0 w' /\
                 (forall x, In x (live (hist w')) <-> In x L0)
             end).
  { intros l w1 [h Hh] E. rewrite (RETURN_LT_None l w1 res w' E).
    intros Hg. exfalso. exact (Hg h _ Hh). }
  assert (clean : forall l w1,
             ledger_inv L0 l w1 -> safe_between w0 w1 ->
             RETURN_LT l None w1 = Some (res, w') ->
             match res with
             | Some g =>
                 safe_between w0 w' /\ lifetime_inv path L0 g w' /\
                 state g = GAME_STATE_RUNNING
             | None =>
                 (forall h l, env h (lt_grow l) <> 0) ->
                 safe_between w0 w' /\
                 (forall x, In x (live (hist w')) <-> In x L0)
             end).
  { intros l w1 Hinv Hs E.
    destruct (construction_fails L0 l w0 w1 res w' Hinv Hs E)
      as (-> & Hs' & Hl').
    intros _. now split. }
  unfold create_game in H. unfold bind at 1 in H.
  destruct (create_lt env w0) as [[olt wa]|] eqn:Elt; [|discriminate].
  apply create_lt_inv in Elt. destruct Elt as (Sa & Ma & Hol).
  destruct olt as [l0|].
  2:{ injection H as <- <-. intros _. split; [exact Sa|].
      intros x. rewrite Hol. tauto. }
  destruct Hol as (Hf0 & Hinv0). fold L0 in Hinv0.
  (* the session block *)
  step_alloc H Hinv0 gp l1 w1 S1 M1 O1.
  destruct O1 as [(-> & -> & [Hinv1 | Hg]) | (Ngp & Ha1 & Hf1 & Hinv1)].
  { change (NULL =? NULL) with true in H. cbv iota in H.
    rewrite throw_then in H.
    destruct (ledger_inv_throw L0 l0 w0 w1 ERROR_TYPE_LIBC Hinv1)
      as [Hi Hs]; [now apply (safe_between_trans w0 wa)|].
    exact (clean _ _ Hi Hs H). }
  { change (NULL =? NULL) with true in H. cbv iota in H.
    rewrite throw_then in H. exact (leak _ _ Hg H). }
  assert (S1' : safe_between w0 w1) by now apply (safe_between_trans w0 wa).
  assert (Egp : (gp =? NULL) = false) by now apply Z.eqb_neq.
  rewrite Egp in H.
  (* the player *)
  step_alloc H Hinv1 pp l2 w2 S2 M2 O2.
  destruct O2 as [(-> & -> & [Hinv2 | Hg]) | (Npp & Ha2 & Hf2 & Hinv2)].
  { change (NULL =? NULL) with true in H. cbv iota in H.
    apply (clean _ _ Hinv2); [|exact H].
    now apply (safe_between_trans w0 w1). }
  { change (NULL =? NULL) with true in H. cbv iota in H.
    exact (leak _ _ Hg H). }
  assert (S2' : safe_between w0 w2) by now apply (safe_between_trans w0 w1).
  assert (Epp : (pp =? NULL) = false) by now apply Z.eqb_neq.
  rewrite Epp in H.
  (* the level geometry *)
  step_alloc H Hinv2 qp l3 w3 S3 M3 O3.
  destruct O3 as [(-> & -> & [Hinv3 | Hg]) | (Nqp & Ha3 & Hf3 & Hinv3)].
  { change (NULL =? NULL) with true in H. cbv iota in H.
    apply (clean _ _ Hinv3); [|exact H].
    now apply (safe_between_trans w0 w2). }
  { change (NULL =? NULL) with true in H. cbv iota in H.
    exact (leak _ _ Hg H). }
  assert (S3' : safe_between w0 w3) by now apply (safe_between_trans w0 w2).
  assert (Eqp : (qp =? NULL) = false) by now apply Z.eqb_neq.
  rewrite Eqp in H.
  (* the camera *)
  step_alloc H Hinv3 cp l4 w4 S4 M4 O4.
  destruct O4 as [(-> & -> & [Hinv4 | Hg]) | (Ncp & Ha4 & Hf4 & Hinv4)].
  { change (NULL =? NULL) with true in H. cbv iota in H.
    apply (clean _ _ Hinv4); [|exact H].
    now apply (safe_between_trans w0 w3). }
  { change (NULL =? NULL) with true in H. cbv iota in H.
    exact (leak _ _ Hg H). }
  assert (S4' : safe_between w0 w4) by now apply (safe_between_trans w0 w3).
  assert (Ecp : (cp =? NULL) = false) by now apply Z.eqb_neq.
  rewrite Ecp in H.
  (* the path buffer *)
  step_alloc H Hinv4 bp l5 w5 S5 M5 O5.
  destruct O5 as [(-> & -> & [Hinv5 | Hg]) | (Nbp & Ha5 & Hf5 & Hinv5)].
  { change (NULL =? NULL) with true in H. cbv iota in H.
    rewrite throw_then in H.
    destruct (ledger_inv_throw L0 l4 w0 w5 ERROR_TYPE_LIBC Hinv5)
      as [Hi Hs]; [now apply (safe_between_trans w0 w4)|].
    exact (clean _ _ Hi Hs H). }
  { change (NULL =? NULL) with true in H. cbv iota in H.
    rewrite throw_then in H. exact (leak _ _ Hg H). }
  assert (S5' : safe_between w0 w5) by now apply (safe_between_trans w0 w4).
  assert (Ebp : (bp =? NULL) = false) by now apply Z.eqb_neq.
  rewrite Ebp in H.
  unfold bind, strcpy, ret in H. injection H as <- <-.
  split.
  { apply (safe_between_trans w0 w5); [exact S5'|].
    now apply safe_between_same_hist. }
  split; [|reflexivity].
  unfold lifetime_inv. cbn [lt player platforms camera level_file_path state mem].
  split; [now apply (ledger_inv_live L0 l5 w5)|]. split.
  - exists gp, qp. split; [|reflexivity].
    rewrite Hf5, Hf4, Hf3, Hf2, Hf1, Hf0. reflexivity.
  - unfold mem_store. now rewrite Z.eqb_refl.
Qed.

(** *** The calls of the loop, seen from the heap *)

Lemma lifetime_inv_live (path : string) (L0 : list ptr) (g : game_t)
      (w w' : world) :
  live (hist w') = live (hist w) ->
  mem w' = mem w ->
  lifetime_inv path L0 g w -> lifetime_inv path L0 g w'.
Proof.
  intros Hl Hm (H1 & H2 & H3). unfold lifetime_inv. rewrite Hm.
  split; [now apply (ledger_inv_live L0 (lt g) w)|]. now split.
Qed.

Lemma lifetime_inv_set_state (path : string) (L0 : list ptr) (g : game_t)
      (w : world) (s : game_state_t) :
  lifetime_inv path L0 g w ->
  state g <> GAME_STATE_QUIT ->
  lifetime_inv path L0 (set_state g s) w.
Proof.
  intros (H1 & (gp & X & Hf & HX) & H3) Hs. unfold lifetime_inv. simpl.
  split; [exact H1|]. split; [|exact H3].
  exists gp, X. split; [exact Hf|]. intros _. now apply HX.
Qed.

(** The handles of a session that is not over are live. *)
Lemma lifetime_handles_live (path : string) (L0 : list ptr) (g : game_t)
      (w : world) :
  lifetime_inv path L0 g w ->
  state g <> GAME_STATE_QUIT ->
  forall p, In p [player g; platforms g; camera g] -> In p (live (hist w)).
Proof.
  intros ((_ & HL & _ & _) & (gp & X & Hf & HX) & _) Hs p Hp.
  apply HL. left. rewrite Hf. simpl. rewrite (HX Hs) in Hp. simpl in Hp.
  tauto.
Qed.

Lemma lifetime_reload (path : string) (L0 : list ptr) (g : game_t) (w : world) :
  lifetime_inv path L0 g w ->
  state g = GAME_STATE_RUNNING ->
  exists z g' w',
    game_event env g (SDL_KEYDOWN SDLK_q) w = Some ((z, g'), w') /\
    safe_between w w' /\
    lifetime_inv path L0 g' w'.
Proof.
  intros Hinv Hs.
  pose proof Hinv as ((N & HL & HD & HK) & (gp & X & Hf & HX) & Hm).
  assert (HpX : platforms g = X) by (apply HX; congruence).
  rewrite (game_event_reload env g w path Hs Hm). cbv zeta.
  set (w1 := log w (printf fmt_reloading path) 0).
  set (new := answer env w1 (load_platforms_from_file path)).
  set (w2 := log w1 (load_platforms_from_file path) new).
  assert (Hl1 : live (hist w1) = live (hist w)).
  { unfold w1. now rewrite live_log. }
  assert (S2 : safe_between w w2).
  { apply (safe_between_trans w w1); apply safe_between_log; intros p []. }
  assert (Hfresh : ~ In new (live (hist w))).
  { rewrite <- Hl1.
    exact (env_fresh (hist w1) (load_platforms_from_file path) eq_refl). }
  destruct (new =? NULL) eqn:En.
  - (* the loader fails: nothing is released, the session is over *)
    do 3 eexists. split; [reflexivity|]. split.
    + apply (safe_between_trans w w2); [exact S2|].
      apply safe_between_log. intros p [].
    + assert (Hl : live (hist (log w2 (print_current_error_msg
                                         msg_could_not_reload) 0))
                   = live (hist w)).
      { rewrite live_log. unfold w2. rewrite live_log, Hl1. simpl.
        now rewrite En. }
      unfold lifetime_inv. simpl.
      split; [now apply (ledger_inv_live L0 (lt g) w)|].
      split; [|exact Hm].
      exists gp, X. split; [exact Hf|]. intros Hq. now contradiction Hq.
  - (* the loader succeeds: the registered handle gives way to the new one *)
    apply Z.eqb_neq in En.
    rewrite Hf in N, HL, HD. cbn [map fst] in N, HL, HD.
    assert (Hin : forall y, In y [lt_addr (lt g); gp; player g; X; camera g;
                                  level_file_path g] ->
                            In y (live (hist w))).
    { intros y Hy. apply HL. now left. }
    assert (HnX : new <> X).
    { intros E. apply Hfresh. rewrite E. apply Hin. simpl. tauto. }
    assert (Hgp : (gp =? X) = false).
    { apply Z.eqb_neq. intros E. subst gp.
      repeat (apply NoDup_cons_iff in N; destruct N as [? N]).
      simpl in *. intuition congruence. }
    assert (Hpp : (player g =? X) = false).
    { apply Z.eqb_neq. intros E.
      repeat (apply NoDup_cons_iff in N; destruct N as [? N]).
      simpl in *. intuition congruence. }
    rewrite Hf, HpX. cbn [reset_frame]. rewrite Hgp, Hpp, Z.eqb_refl.
    do 3 eexists. split; [reflexivity|].
    set (w3 := log w2 (destroy_platforms X) 0).
    assert (Hl3 : live (hist w3) = remove Z.eq_dec X (new :: live (hist w))).
    { unfold w3. rewrite live_log. unfold w2. rewrite live_log, Hl1.
      simpl. assert (E : (new =? NULL) = false) by now apply Z.eqb_neq.
      now rewrite E. }
    split.
    + apply (safe_between_trans w w2); [exact S2|].
      apply safe_between_log. intros p [<- | []].
      unfold w2. rewrite live_log, Hl1. simpl.
      assert (E : (new =? NULL) = false) by now apply Z.eqb_neq.
      rewrite E. right. apply Hin. simpl. tauto.
    + unfold lifetime_inv.
      cbn [lt set_platforms frames lt_addr player platforms camera
              level_file_path state].
      split; [|split].
      * unfold ledger_inv. cbn [frames lt_addr map fst]. fold w3.
        rewrite Hl3.
        assert (Hnew : ~ In new [lt_addr (lt g); gp; player g; X; camera g;
                                 level_file_path g]).
        { intros Hy. apply Hfresh, Hin, Hy. }
        assert (HXL : ~ In X L0).
        { apply HD. simpl. tauto. }
        apply NoDup_cons_iff in N; destruct N as [N1 N].
        apply NoDup_cons_iff in N; destruct N as [N2 N].
        apply NoDup_cons_iff in N; destruct N as [N3 N].
        apply NoDup_cons_iff in N; destruct N as [N4 N].
        apply NoDup_cons_iff in N; destruct N as [N5 _].
        cbn [In] in N1, N2, N3, N4, N5, Hnew.
        split; [|split; [|split]].
        -- repeat (apply NoDup_cons; [cbn [In]; intuition congruence|]).
           apply NoDup_nil.
        -- intros x. rewrite in_remove_iff. cbn [In]. rewrite HL. cbn [In].
           split.
           ++ intros [[E | [E | E]] Hne]; [tauto| |now right].
              left. intuition congruence.
           ++ intros [E | E].
              ** split; [tauto|]. intros ->. intuition congruence.
              ** split; [tauto|]. intros ->. contradiction.
        -- intros x Hx HxL. cbn [In] in Hx.
           destruct Hx as [E | [E | [E | [E | [E | [E | []]]]]]];
             subst x;
             first [ apply Hfresh, HL; right; exact HxL
                   | refine (HD _ _ HxL); cbn [In]; tauto ].
        -- rewrite Hf in HK.
           inversion HK as [|? ? K1 HK1]; subst.
           inversion HK1 as [|? ? K2 HK2]; subst.
           inversion HK2 as [|? ? K3 HK3]; subst.
           repeat constructor; assumption.
      * exists gp, new. split; reflexivity.
      * fold w3. unfold w3. simpl. exact Hm.
Qed.

Lemma lifetime_same (path : string) (L0 : list ptr) (g : game_t) (w : world)
      (z : Z) :
  lifetime_inv path L0 g w ->
  exists z' g' w',
    Some ((z, g), w) = Some ((z', g'), w') /\
    safe_between w w' /\ lifetime_inv path L0 g' w'.
Proof.
  intros H. exists z, g, w. split; [reflexivity|].
  split; [apply safe_between_refl|exact H].
Qed.

Lemma lifetime_restate (path : string) (L0 : list ptr) (g : game_t) (w : world)
      (s : game_state_t) :
  lifetime_inv path L0 g w ->
  state g <> GAME_STATE_QUIT ->
  exists z' g' w',
    Some ((0, set_state g s), w) = Some ((z', g'), w') /\
    safe_between w w' /\ lifetime_inv path L0 g' w'.
Proof.
  intros H Hs. do 3 eexists. split; [reflexivity|].
  split; [apply safe_between_refl|now apply lifetime_inv_set_state].
Qed.

Lemma lifetime_jump (path : string) (L0 : list ptr) (g : game_t) (w : world) :
  lifetime_inv path L0 g w ->
  state g <> GAME_STATE_QUIT ->
  exists z' g' w',
    Some ((0, g), log w (player_jump (player g)) 0) = Some ((z', g'), w') /\
    safe_between w w' /\ lifetime_inv path L0 g' w'.
Proof.
  intros H Hs. do 3 eexists. split; [reflexivity|]. split.
  - apply safe_between_log. intros p [<- | []].
    apply (lifetime_handles_live path L0 g w H Hs). now left.
  - apply (lifetime_inv_live path L0 g w); [|reflexivity|exact H].
    now rewrite live_log.
Qed.

Lemma lifetime_tame (path : string) (L0 : list ptr) (g : game_t) (w : world)
      (m : M Z) :
  lifetime_inv path L0 g w ->
  state g <> GAME_STATE_QUIT ->
  tame [player g; platforms g; camera g] m ->
  exists z g' w',
    (r <- m ;; ret (r, g)) w = Some ((z, g'), w') /\
    safe_between w w' /\ lifetime_inv path L0 g' w'.
Proof.
  intros H Hs Hm.
  destruct (tame_safe _ m w Hm (lifetime_handles_live path L0 g w H Hs))
    as (a & w' & E & S & Hl & Hmem).
  exists a, g, w'. unfold bind. rewrite E. split; [reflexivity|].
  split; [exact S|]. now apply (lifetime_inv_live path L0 g w).
Qed.

Lemma lifetime_step (path : string) (L0 : list ptr) (c : frame_call)
      (g : game_t) (w : world) :
  lifetime_inv path L0 g w ->
  valid_call c ->
  exists z g' w',
    step env c g w = Some ((z, g'), w') /\
    safe_between w w' /\ lifetime_inv path L0 g' w'.
Proof.
  intros Hinv Hv.
  destruct (game_state_eqb (state g) GAME_STATE_QUIT) eqn:Eq.
  { apply game_state_eqb_eq in Eq.
    rewrite (step_quit env c g w Eq Hv). now apply lifetime_same. }
  assert (Hs : state g <> GAME_STATE_QUIT).
  { intros E. apply game_state_eqb_eq in E. congruence. }
  clear Eq.
  destruct c as [kb stick | e | dt | rd]; simpl in Hv.
  - cbn [step]. apply lifetime_tame; [exact Hinv|exact Hs|].
    now apply game_input_tame.
  - cbn [step]. unfold game_event.
    destruct (state g) eqn:Hst.
    + (* Running *)
      destruct e as [ | sym | button | ]; simpl.
      * (apply lifetime_restate; [exact Hinv|congruence]).
      * destruct (Z.eq_dec sym SDLK_q) as [-> | Hq].
        -- pose proof (lifetime_reload path L0 g w Hinv Hst) as Hr.
           unfold game_event in Hr. rewrite Hst in Hr. exact Hr.
        -- assert (Eq : (sym =? SDLK_q) = false) by now apply Z.eqb_neq.
           rewrite Eq.
           destruct (sym =? SDLK_SPACE); [(apply lifetime_jump; [exact Hinv|congruence])|].
           destruct (sym =? SDLK_p);
             [(apply lifetime_restate; [exact Hinv|congruence])|now apply lifetime_same].
      * destruct (button =? 1);
          [(apply lifetime_jump; [exact Hinv|congruence])|now apply lifetime_same].
      * now apply lifetime_same.
    + (* Pause *)
      destruct e as [ | sym | button | ]; simpl.
      * (apply lifetime_restate; [exact Hinv|congruence]).
      * destruct (sym =? SDLK_p);
          [(apply lifetime_restate; [exact Hinv|congruence])|now apply lifetime_same].
      * now apply lifetime_same.
      * now apply lifetime_same.
    + now contradiction Hs.
    + now apply lifetime_same.
  - cbn [step]. apply lifetime_tame; [exact Hinv|exact Hs|].
    now apply game_update_tame.
  - cbn [step]. apply lifetime_tame; [exact Hinv|exact Hs|].
    now apply game_render_tame.
Qed.

Lemma lifetime_run (path : string) (L0 : list ptr) (cs : list frame_call) :
  forall g w,
    lifetime_inv path L0 g w ->
    Forall valid_call cs ->
    exists zs g' w',
      run env cs g w = Some ((zs, g'), w') /\
      safe_between w w' /\ lifetime_inv path L0 g' w'.
Proof.
  induction cs as [|c cs IH]; intros g w Hinv Hv.
  - exists [], g, w. split; [reflexivity|].
    split; [apply safe_between_refl|exact Hinv].
  - inversion Hv as [|x xs Hc Hcs]; subst.
    destruct (lifetime_step path L0 c g w Hinv Hc)
      as (z & g1 & w1 & E1 & S1 & Hinv1).
    destruct (IH g1 w1 Hinv1 Hcs) as (zs & g2 & w2 & E2 & S2 & Hinv2).
    exists (z :: zs), g2, w2. simpl. unfold bind. rewrite E1, E2.
    split; [reflexivity|]. split; [|exact Hinv2].
    now apply (safe_between_trans w w1 w2).
Qed.

(** A whole session: construction, calls of the loop, destruction. *)
Lemma lifetime_whole (path : string) (w0 : world) (g : game_t) (w1 : world)
      (cs : list frame_call) :
  create_game env sizeof_game_t path w0 = Some (Some g, w1) ->
  Forall valid_call cs ->
  exists zs g' w2 w3,
    run env cs g w1 = Some ((zs, g'), w2) /\
    destroy_game g' w2 = Some (tt, w3) /\
    safe_between w0 w3 /\
    (forall x, In x (live (hist w3)) <-> In x (live (hist w0))).
Proof.
  intros Hc Hv.
  destruct (create_game_lifetime path w0 (Some g) w1 Hc) as (S1 & Hinv1 & _).
  destruct (lifetime_run path _ cs g w1 Hinv1 Hv)
    as (zs & g' & w2 & E2 & S2 & (Hl2 & _ & _)).
  destruct (RETURN_LT_safe _ (lt g') tt w2 Hl2) as (w3 & E3 & S3 & L3).
  exists zs, g', w2, w3. split; [exact E2|]. split; [exact E3|].
  split; [|exact L3].
  apply (safe_between_trans w0 w1); [exact S1|].
  now apply (safe_between_trans w1 w2).
Qed.

(** X11: with an allocator that hands out fresh addresses (and the ledger
    as modelled), over a whole session -- successful construction, any
    sequence of valid calls of the loop, destruction -- every call returns
    and every heap object handed to a collaborator is live at that moment:
    no null handle, no handle already released, no second release. *)
Theorem session_memory_safe
        (path : string) (w0 : world) (g : game_t) (w1 : world)
        (cs : list frame_call) :
  create_game env sizeof_game_t path w0 = Some (Some g, w1) ->
  Forall valid_call cs ->
  exists zs g' w2 w3,
    run env cs g w1 = Some ((zs, g'), w2) /\
    destroy_game g' w2 = Some (tt, w3) /\
    safe_between w0 w3.
Proof.
  intros Hc Hv.
  destruct (lifetime_whole path w0 g w1 cs Hc Hv)
    as (zs & g' & w2 & w3 & E2 & E3 & S & _).
  now exists zs, g', w2, w3.
Qed.

(** X12: under the same assumptions, a whole session leaves the heap as it
    found it: after [destroy_game] the live objects are exactly those that
    were live before [create_game], whatever reloads happened in between,
    failed ones included. *)
Theorem session_leaves_no_garbage
        (path : string) (w0 : world) (g : game_t) (w1 : world)
        (cs : list frame_call) :
  create_game env sizeof_game_t path w0 = Some (Some g, w1) ->
  Forall valid_call cs ->
  exists zs g' w2 w3,
    run env cs g w1 = Some ((zs, g'), w2) /\
    destroy_game g' w2 = Some (tt, w3) /\
    (forall x, In x (live (hist w3)) <-> In x (live (hist w0))).
Proof.
  intros Hc Hv.
  destruct (lifetime_whole path w0 g w1 cs Hc Hv)
    as (zs & g' & w2 & w3 & E2 & E3 & _ & L).
  now exists zs, g', w2, w3.
Qed.

(** X13: under the same assumptions, when the ledger never fails to grow, a
    construction that fails -- at whichever allocation -- has released
    everything it had allocated, each object once and while live: the live
    objects are those that were live before the call. *)
Theorem failed_construction_releases_all
        (path : string) (w0 w' : world) :
  (forall h l, env h (lt_grow l) <> 0) ->
  create_game env sizeof_game_t path w0 = Some (None, w') ->
  safe_between w0 w' /\
  (forall x, In x (live (hist w')) <-> In x (live (hist w0))).
Proof.
  intros Hg Hc.
  exact (create_game_lifetime path w0 None w' Hc Hg).
Qed.

(** X14: under the same assumptions, reloads do not disturb the order of
    teardown: after a successful construction and any sequence of valid
    calls, [destroy_game] releases the path buffer, the camera, the
    registered level geometry, the player, the session block and then the
    ledger, in this order and nothing else; the geometry released is the
    handle of the session unless the session is over. *)
Theorem teardown_after_any_run
        (path : string) (w0 : world) (g : game_t) (w1 : world)
        (cs : list frame_call) :
  create_game env sizeof_game_t path w0 = Some (Some g, w1) ->
  Forall valid_call cs ->
  exists zs g' w2 w3 gp X,
    run env cs g w1 = Some ((zs, g'), w2) /\
    destroy_game g' w2 = Some (tt, w3) /\
    hist w3 = hist w2 ++ [(free (level_file_path g'), 0);
                          (destroy_camera (camera g'), 0);
                          (destroy_platforms X, 0);
                          (destroy_player (player g'), 0);
                          (free gp, 0);
                          (lt_free (lt_addr (lt g')), 0)] /\
    (state g' <> GAME_STATE_QUIT -> X = platforms g').
Proof.
  intros Hc Hv.
  destruct (create_game_lifetime path w0 (Some g) w1 Hc) as (_ & Hinv1 & _).
  destruct (lifetime_run path _ cs g w1 Hinv1 Hv)
    as (zs & g' & w2 & E2 & _ & (_ & (gp & X & Hf & HX) & _)).
  exists zs, g'. do 2 eexists. exists gp, X.
  split; [exact E2|]. unfold destroy_game, RETURN_LT0.
  rewrite RETURN_LT_logs. split; [reflexivity|]. split.
  - rewrite hist_logs, Hf. reflexivity.
  - intros Hs. symmetry. now apply HX.
Qed.

End Lifetime.

Section Construction.

Variable env : history -> call -> Z.
Variable sizeof_game_t : Z.

(** X15: when no collaborator answers 0, [create_game] returns a session:
    it is Running, its handles are the addresses the collaborators returned,
    its path buffer was allocated with one byte more than the length of the
    path and holds the path, and the calls made are the five allocations,
    each followed by its registration, and nothing else (no release, no
    error recorded). *)
Theorem construction_succeeds (path : string) (w : world) :
  (forall h c, env h c <> 0) ->
  exists g w' gp k1 k2 k3 k4 k5,
    create_game env sizeof_game_t path w = Some (Some g, w') /\
    state g = GAME_STATE_RUNNING /\
    is_game_over g = 0 /\
    mem w' (level_file_path g) = Some path /\
    frames (lt g) = [(gp, free); (player g, destroy_player);
                     (platforms g, destroy_platforms);
                     (camera g, destroy_camera);
                     (level_file_path g, free)] /\
    hist w' =
    hist w ++
    [(lt_alloc, lt_addr (lt g)); (malloc sizeof_game_t, gp);
     (lt_grow (lt_addr (lt g)), k1);
     (create_player, player g); (lt_grow (lt_addr (lt g)), k2);
     (load_platforms_from_file path, platforms g);
     (lt_grow (lt_addr (lt g)), k3);
     (create_camera, camera g); (lt_grow (lt_addr (lt g)), k4);
     (malloc (1 * (Z.of_nat (String.length path) + 1)), level_file_path g);
     (lt_grow (lt_addr (lt g)), k5)].
Proof.
  intros Hok.
  assert (nzN : forall W c, (answer env W c =? NULL) = false).
  { intros W c. apply Z.eqb_neq. apply Hok. }
  assert (nz0 : forall W c, (answer env W c =? 0) = false).
  { intros W c. apply Z.eqb_neq. apply Hok. }
  assert (E : exists g w',
             create_game env sizeof_game_t path w = Some (Some g, w')).
  { cbv beta iota delta
        [create_game create_lt PUSH_LT RETURN_LT release_all release_frames
         bind ret emit extern strcpy frames lt_addr rev app].
    repeat first [rewrite nzN | rewrite nz0]. eauto. }
  destruct E as (g & w' & E).
  destruct (create_game_success env sizeof_game_t path w g w' E)
    as (la & gp & k1 & pp & k2 & qp & k3 & cp & k4 & bp & k5 &
        _ & _ & Hg & Hh & Hm).
  cbv zeta in *.
  exists g, w', gp, k1, k2, k3, k4, k5.
  split; [exact E|]. rewrite Hg. cbn [state lt frames lt_addr player
                                       platforms camera level_file_path].
  split; [reflexivity|]. split; [reflexivity|].
  split; [rewrite Hm; unfold mem_store; now rewrite Z.eqb_refl|].
  split; [reflexivity|]. rewrite Hh. reflexivity.
Qed.

End Construction.

(** ** The further properties at concrete inputs *)

Lemma env_no_level_fresh : allocator_fresh env_no_level.
Proof.
  intros h c Hc. destruct c; try discriminate Hc; simpl;
    try apply fresh_addr_fresh.
  apply live_nonnull.
Qed.

Lemma fresh_addr_nonzero (h : history) : fresh_addr h <> 0.
Proof.
  unfold fresh_addr.
  assert (H : 1000 <= fold_right Z.max 1000 (map snd h)).
  { induction (map snd h) as [|y l IH]; simpl; lia. }
  lia.
Qed.

Lemma paused_event_table_witness :
  state (set_state game0 GAME_STATE_PAUSE) = GAME_STATE_PAUSE /\
  exists s,
    game_event env_ok (set_state game0 GAME_STATE_PAUSE)
               (SDL_KEYDOWN SDLK_p) world1
    = Some ((0, set_state (set_state game0 GAME_STATE_PAUSE) s), world1) /\
    s = GAME_STATE_RUNNING.
Proof.
  split; [reflexivity|].
  destruct (paused_event_table env_ok (set_state game0 GAME_STATE_PAUSE)
                               (SDL_KEYDOWN SDLK_p) world1 eq_refl)
    as (s & E & _ & Hp & _).
  exists s. split; [exact E|]. now apply Hp.
Defined.

Lemma pause_resume_round_trip_witness :
  state game0 = GAME_STATE_RUNNING /\
  exists g1,
    game_event env_ok game0 (SDL_KEYDOWN SDLK_p) world1
    = Some ((0, g1), world1) /\
    state g1 = GAME_STATE_PAUSE /\
    game_event env_ok g1 (SDL_KEYDOWN SDLK_p) world1
    = Some ((0, game0), world1).
Proof.
  split; [reflexivity|].
  apply (pause_resume_round_trip env_ok game0 world1). reflexivity.
Defined.

Lemma paused_input_suppressed_witness :
  state (set_state game0 GAME_STATE_PAUSE) = GAME_STATE_PAUSE /\
  7 <> NULL /\
  game_input env_ok (set_state game0 GAME_STATE_PAUSE) keys_A_and_D 7 world1
  = Some (0, world1).
Proof.
  split; [reflexivity|]. split; [discriminate|].
  apply (paused_input_suppressed env_ok); [reflexivity|discriminate].
Defined.

Lemma jump_key_and_button_agree_witness :
  state game0 = GAME_STATE_RUNNING /\
  game_event env_ok game0 (SDL_KEYDOWN SDLK_SPACE) world1 =
  Some ((0, game0), log world1 (player_jump (player game0)) 0) /\
  game_event env_ok game0 (SDL_JOYBUTTONDOWN 1) world1 =
  game_event env_ok game0 (SDL_KEYDOWN SDLK_SPACE) world1.
Proof.
  split; [reflexivity|].
  apply (jump_key_and_button_agree env_ok game0 world1). reflexivity.
Defined.

Lemma event_keeps_handles_witness :
  exists r g' w',
    game_event env_ok game0 (SDL_KEYDOWN SDLK_q) world1
    = Some ((r, g'), w') /\
    player g' = player game0 /\
    camera g' = camera game0 /\
    level_file_path g' = level_file_path game0 /\
    lt_addr (lt g') = lt_addr (lt game0) /\
    map snd (frames (lt g')) = map snd (frames (lt game0)).
Proof.
  destruct (game_event env_ok game0 (SDL_KEYDOWN SDLK_q) world1)
    as [[[r g'] w']|] eqn:E; [|vm_compute in E; discriminate E].
  exists r, g', w'. split; [reflexivity|].
  destruct (event_keeps_handles env_ok game0 _ world1 r g' w' E)
    as (H1 & H2 & H3 & H4 & H5 & _).
  repeat split; assumption.
Defined.

Lemma termination_causes_witness :
  (state game0 = GAME_STATE_RUNNING \/ state game0 = GAME_STATE_PAUSE) /\
  exists r g' w',
    game_event env_reload_fails game0 (SDL_KEYDOWN SDLK_q) world1
    = Some ((r, g'), w') /\
    (is_game_over g' = 1 <-> SDL_KEYDOWN SDLK_q = SDL_QUIT \/ r = -1).
Proof.
  split; [now left|].
  destruct (game_event env_reload_fails game0 (SDL_KEYDOWN SDLK_q) world1)
    as [[[r g'] w']|] eqn:E; [|vm_compute in E; discriminate E].
  exists r, g', w'. split; [reflexivity|].
  apply (termination_causes env_reload_fails game0 _ world1 r g' w');
    [now left|exact E].
Defined.

Lemma render_outcomes_witness :
  state game0 <> GAME_STATE_QUIT /\
  5 <> NULL /\
  exists r w' evs,
    game_render env_ok game0 5 world1 = Some (r, w') /\
    hist w' = hist world1 ++ evs /\
    (r = 0 \/ r = -1) /\
    (r = 0 <-> In (SDL_RenderPresent 5, 0) evs).
Proof.
  split; [discriminate|]. split; [discriminate|].
  destruct (render_outcomes env_ok game0 5 world1)
    as (r & w' & evs & E & Hh & Hr & Hp & _); [discriminate|discriminate|].
  exists r, w', evs. repeat split; try assumption; apply Hp.
Defined.

Lemma input_axis_reads_witness :
  state game0 = GAME_STATE_RUNNING /\
  7 <> NULL /\
  exists w' evs,
    game_input env_ok game0 keys_none 7 world1 = Some (0, w') /\
    hist w' = hist world1 ++ evs /\
    List.length (filter is_axis_read (map fst evs)) = 2%nat.
Proof.
  split; [reflexivity|]. split; [discriminate|].
  destruct (input_axis_reads env_ok game0 keys_none 7 world1 eq_refl)
    as (w' & evs & E & Hh & _ & Hr); [discriminate|].
  exists w', evs. split; [exact E|]. split; [exact Hh|].
  apply (Hr eq_refl eq_refl). vm_compute. discriminate.
Defined.

Lemma contract_violations_abort_witness :
  0 <= 0 /\
  game_update (set_state game0 GAME_STATE_QUIT) 0 world1 = None /\
  game_input env_ok game0 keys_none NULL world1 = None /\
  game_render env_ok game0 NULL world1 = None.
Proof.
  split; [lia|].
  destruct (contract_violations_abort env_ok game0 world1) as (_ & H2 & H3).
  destruct (contract_violations_abort
              env_ok (set_state game0 GAME_STATE_QUIT) world1) as (H1 & _).
  split; [apply H1; lia|]. split; [apply H2|exact H3].
Defined.

Lemma render_ignores_pause_witness :
  state game0 <> GAME_STATE_QUIT /\
  GAME_STATE_PAUSE <> GAME_STATE_QUIT /\
  game_render env_ok (set_state game0 GAME_STATE_PAUSE) 5 world1
  = game_render env_ok game0 5 world1.
Proof.
  split; [discriminate|]. split; [discriminate|].
  apply (render_ignores_pause env_ok); discriminate.
Defined.

Lemma successful_reload_witness :
  state game0 = GAME_STATE_RUNNING /\
  mem world1 (level_file_path game0) = Some "lvl"%string /\
  In (platforms game0) (map fst (frames (lt game0))) /\
  answer env_ok (log world1 (printf fmt_reloading "lvl") 0)
         (load_platforms_from_file "lvl") <> NULL /\
  exists d g' w',
    game_event env_ok game0 (SDL_KEYDOWN SDLK_q) world1
    = Some ((0, g'), w') /\
    state g' = GAME_STATE_RUNNING /\
    platforms g' = 1007 /\
    hist w' = hist world1 ++ [(printf fmt_reloading "lvl", 0);
                              (load_platforms_from_file "lvl", 1007);
                              (d (platforms game0), 0)].
Proof.
  assert (Hin : In (platforms game0) (map fst (frames (lt game0)))).
  { simpl. tauto. }
  assert (Hnew : answer env_ok (log world1 (printf fmt_reloading "lvl") 0)
                        (load_platforms_from_file "lvl") <> NULL).
  { vm_compute. discriminate. }
  split; [reflexivity|]. split; [reflexivity|]. split; [exact Hin|].
  split; [exact Hnew|].
  destruct (successful_reload env_ok game0 world1 "lvl" eq_refl eq_refl
                              Hin Hnew)
    as (d & g' & w' & E & Hs & Hp & _ & _ & _ & Hh).
  exists d, g', w'. repeat split; assumption.
Defined.

Lemma session_memory_safe_witness :
  allocator_fresh env_ok /\
  create_game env_ok 64 "lvl" world0 = Some (Some game0, world1) /\
  Forall valid_call [call_event (SDL_KEYDOWN SDLK_q); call_render 5;
                     call_update 16; call_event SDL_QUIT] /\
  exists zs g' w2 w3,
    run env_ok [call_event (SDL_KEYDOWN SDLK_q); call_render 5;
                call_update 16; call_event SDL_QUIT] game0 world1
    = Some ((zs, g'), w2) /\
    destroy_game g' w2 = Some (tt, w3) /\
    safe_between world0 w3.
Proof.
  assert (Hv : Forall valid_call [call_event (SDL_KEYDOWN SDLK_q);
                                  call_render 5; call_update 16;
                                  call_event SDL_QUIT]).
  { repeat constructor; simpl; try discriminate; lia. }
  split; [exact env_ok_fresh|]. split; [reflexivity|]. split; [exact Hv|].
  apply (session_memory_safe env_ok 64 env_ok_fresh "lvl" world0 game0 world1
                             _ eq_refl Hv).
Defined.

Lemma session_leaves_no_garbage_witness :
  allocator_fresh env_reload_fails /\
  create_game env_reload_fails 64 "lvl" world0 = Some (Some game0, world1) /\
  Forall valid_call [call_event (SDL_KEYDOWN SDLK_q); call_render 5] /\
  exists zs g' w2 w3,
    run env_reload_fails [call_event (SDL_KEYDOWN SDLK_q); call_render 5]
        game0 world1
    = Some ((zs, g'), w2) /\
    destroy_game g' w2 = Some (tt, w3) /\
    (forall x, In x (live (hist w3)) <-> In x (live (hist world0))).
Proof.
  assert (Hv : Forall valid_call [call_event (SDL_KEYDOWN SDLK_q);
                                  call_render 5]).
  { repeat constructor; simpl; discriminate. }
  split; [exact env_reload_fails_fresh|]. split; [reflexivity|].
  split; [exact Hv|].
  apply (session_leaves_no_garbage env_reload_fails 64 env_reload_fails_fresh
                                   "lvl" world0 game0 world1 _ eq_refl Hv).
Defined.

Lemma failed_construction_releases_all_witness :
  allocator_fresh env_no_level /\
  (forall h l, env_no_level h (lt_grow l) <> 0) /\
  exists w',
    create_game env_no_level 64 "lvl" world0 = Some (None, w') /\
    safe_between world0 w' /\
    (forall x, In x (live (hist w')) <-> In x (live (hist world0))).
Proof.
  assert (Hg : forall h l, env_no_level h (lt_grow l) <> 0).
  { intros h l. simpl. discriminate. }
  split; [exact env_no_level_fresh|]. split; [exact Hg|].
  destruct (create_game env_no_level 64 "lvl" world0)
    as [[[g|] w']|] eqn:E;
    [vm_compute in E; discriminate E| |vm_compute in E; discriminate E].
  exists w'. split; [reflexivity|].
  apply (failed_construction_releases_all env_no_level 64 env_no_level_fresh
                                          "lvl" world0 w' Hg E).
Defined.

Lemma teardown_after_any_run_witness :
  allocator_fresh env_ok /\
  create_game env_ok 64 "lvl" world0 = Some (Some game0, world1) /\
  Forall valid_call [call_event (SDL_KEYDOWN SDLK_q);
                     call_event (SDL_KEYDOWN SDLK_q)] /\
  exists zs g' w2 w3 gp X,
    run env_ok [call_event (SDL_KEYDOWN SDLK_q);
                call_event (SDL_KEYDOWN SDLK_q)] game0 world1
    = Some ((zs, g'), w2) /\
    destroy_game g' w2 = Some (tt, w3) /\
    hist w3 = hist w2 ++ [(free (level_file_path g'), 0);
                          (destroy_camera (camera g'), 0);
                          (destroy_platforms X, 0);
                          (destroy_player (player g'), 0);
                          (free gp, 0);
                          (lt_free (lt_addr (lt g')), 0)] /\
    (state g' <> GAME_STATE_QUIT -> X = platforms g').
Proof.
  assert (Hv : Forall valid_call [call_event (SDL_KEYDOWN SDLK_q);
                                  call_event (SDL_KEYDOWN SDLK_q)]).
  { repeat constructor. }
  split; [exact env_ok_fresh|]. split; [reflexivity|]. split; [exact Hv|].
  apply (teardown_after_any_run env_ok 64 env_ok_fresh "lvl" world0 game0
                                world1 _ eq_refl Hv).
Defined.

Lemma construction_succeeds_witness :
  (forall h c, env_all_fresh h c <> 0) /\
  exists g w',
    create_game env_all_fresh 64 "lvl" world0 = Some (Some g, w') /\
    state g = GAME_STATE_RUNNING /\
    is_game_over g = 0 /\
    mem w' (level_file_path g) = Some "lvl"%string.
Proof.
  assert (Hok : forall h c, env_all_fresh h c <> 0).
  { intros h c. apply fresh_addr_nonzero. }
  split; [exact Hok|].
  destruct (construction_succeeds env_all_fresh 64 "lvl" world0 Hok)
    as (g & w' & gp & k1 & k2 & k3 & k4 & k5 & E & Hs & Ho & Hm & _).
  exists g, w'. repeat split; assumption.
Defined.

(** * The handles of the session *)

Lemma nonnull_inv (p : ptr) : nonnull p = true -> p <> NULL.
Proof.
  unfold nonnull. intros H. apply negb_true_iff in H. now apply Z.eqb_neq.
Qed.

Lemma mem_after_cases (c : call) (m : ptr -> option string) (q : ptr) :
  mem_after c m q = m q \/ mem_after c m q = None.
Proof.
  destruct c; simpl; try (now left).
  unfold mem_drop. destruct (q =? p); [now right|now left].
Qed.

Lemma neutral_not_load (evs : history) (path : string) (r : Z) :
  Forall (fun e => neutral (fst e) = true) evs ->
  ~ In (load_platforms_from_file path, r) evs.
Proof.
  intros Hn HIn. rewrite Forall_forall in Hn. apply Hn in HIn.
  discriminate HIn.
Qed.

Lemma known_destroy_not_load (d : lt_destroy_t) (p : ptr) (path : string) :
  known_destroy d -> d p <> load_platforms_from_file path.
Proof. intros [-> | [-> | [-> | ->]]]; discriminate. Qed.

Section Handles.

Variable env : history -> call -> Z.
Variable sizeof_game_t : Z.

Lemma step_valid (c : frame_call) (g : game_t) (w : world)
      (r : Z * game_t * world) :
  step env c g w = Some r -> valid_call c.
Proof.
  destruct c as [kb stick | e | dt | rd]; simpl; intros H.
  - unfold game_input, bind, assert in H.
    destruct (nonnull stick) eqn:E; [now apply nonnull_inv|discriminate].
  - exact I.
  - unfold game_update, bind, assert in H.
    destruct (0 <? dt) eqn:E; [now apply Z.ltb_lt|discriminate].
  - unfold game_render, bind, assert in H.
    destruct (nonnull rd) eqn:E; [now apply nonnull_inv|discriminate].
Qed.

Lemma create_game_handles (path : string) (w0 : world) (g : game_t) (w : world) :
  create_game env sizeof_game_t path w0 = Some (Some g, w) ->
  handles_inv path g w /\ platforms g <> NULL.
Proof.
  intros H.
  destruct (create_game_success env sizeof_game_t path w0 g w H)
    as (la & gp & k1 & pp & k2 & qp & k3 & cp & k4 & bp & k5 &
        (Nla & Ngp & Npp & Nqp & Ncp & Nbp) & _ & Hg & _ & Hm).
  cbv zeta in *. unfold handles_inv. rewrite Hg, Hm. simpl.
  split; [|exact Nqp].
  split; [exact Npp|]. split; [exact Ncp|]. split; [exact Nbp|].
  split; [left; unfold mem_store; now rewrite Z.eqb_refl|].
  split; [|intros E; contradiction].
  repeat (constructor; [unfold known_destroy; simpl; tauto|]). constructor.
Qed.

(** A call that leaves the session and the buffers as they are and loads
    nothing. *)
Lemma handles_quiet (path : string) (g : game_t) (w w' : world)
      (evs : history) (z : Z) :
  handles_inv path g w ->
  hist w' = hist w ++ evs ->
  mem w' = mem w ->
  Forall (fun e => neutral (fst e) = true) evs ->
  handles_inv path g w' /\ geometry_effect path (z = -1) g w g w'.
Proof.
  intros (H1 & H2 & H3 & H4 & H5 & H6) Hh Hm Hn. split.
  - unfold handles_inv. rewrite Hm. tauto.
  - exists evs. split; [exact Hh|]. split; [|split].
    + intros HIn. exfalso. exact (neutral_not_load evs path NULL Hn HIn).
    + intros E. now left.
    + intros E. exact E.
Qed.

Lemma handles_restate (path : string) (g : game_t) (w : world)
      (s : game_state_t) (z : Z) :
  handles_inv path g w ->
  (platforms g = NULL -> s = GAME_STATE_QUIT) ->
  handles_inv path (set_state g s) w /\
  geometry_effect path (z = -1) g w (set_state g s) w.
Proof.
  intros (H1 & H2 & H3 & H4 & H5 & H6) Hs. split.
  - unfold handles_inv. simpl. tauto.
  - exists []. rewrite app_nil_r. simpl. tauto.
Qed.

Lemma handles_reload (path : string) (g : game_t) (w : world)
      (z : Z) (g' : game_t) (w' : world) :
  handles_inv path g w ->
  state g = GAME_STATE_RUNNING ->
  game_event env g (SDL_KEYDOWN SDLK_q) w = Some ((z, g'), w') ->
  handles_inv path g' w' /\ geometry_effect path (z = -1) g w g' w'.
Proof.
  intros Hinv Hs H.
  pose proof Hinv as (H1 & H2 & H3 & H4 & H5 & H6).
  assert (Hp : platforms g <> NULL).
  { intros E. apply H6 in E. congruence. }
  destruct H4 as [Hm | Hm];
    [|rewrite (game_event_reload_unreadable env g w Hs Hm) in H;
      discriminate].
  rewrite (game_event_reload env g w path Hs Hm) in H. cbv zeta in H.
  set (w1 := log w (printf fmt_reloading path) 0) in *.
  set (new := answer env w1 (load_platforms_from_file path)) in *.
  set (w2 := log w1 (load_platforms_from_file path) new) in *.
  destruct (new =? NULL) eqn:En.
  - (* the loader fails *)
    apply Z.eqb_eq in En. injection H as <- <- <-. split.
    + unfold handles_inv. simpl. repeat split; try assumption. now left.
    + exists [(printf fmt_reloading path, 0);
              (load_platforms_from_file path, NULL);
              (print_current_error_msg msg_could_not_reload, 0)].
      split; [simpl; rewrite En; now rewrite <- !app_assoc|].
      simpl. repeat split; try reflexivity. intros _. right. tauto.
  - (* the loader succeeds *)
    apply Z.eqb_neq in En.
    assert (Hload : (load_platforms_from_file path, new)
                    <> (load_platforms_from_file path, NULL)).
    { intros E. injection E as E. contradiction. }
    destruct (reset_frame (frames (lt g)) (platforms g) new)
      as [[d fs]|] eqn:Er; injection H as <- <- <-.
    + destruct (reset_frame_known _ _ _ _ _ Er H5) as [Hd Hfs]. split.
      * unfold handles_inv. simpl. split; [exact H1|]. split; [exact H2|].
        split; [exact H3|]. split; [|split; [exact Hfs|]].
        -- destruct (mem_after_cases (d (platforms g)) (mem w)
                                     (level_file_path g)) as [E | E];
             rewrite E; [now left|now right].
        -- intros E. contradiction.
      * exists [(printf fmt_reloading path, 0);
                (load_platforms_from_file path, new);
                (d (platforms g), 0)].
        split; [simpl; now rewrite <- !app_assoc|]. simpl.
        split; [|split].
        -- intros [E | [E | [E | []]]]; exfalso.
           ++ discriminate E.
           ++ contradiction.
           ++ injection E as E.
              exact (known_destroy_not_load d (platforms g) path Hd E).
        -- intros E. contradiction.
        -- intros E. contradiction.
    + split.
      * unfold handles_inv. simpl. repeat split; try assumption.
        -- now left.
        -- intros E. contradiction.
      * exists [(printf fmt_reloading path, 0);
                (load_platforms_from_file path, new)].
        split; [simpl; now rewrite <- !app_assoc|]. simpl.
        split; [|split].
        -- intros [E | [E | []]]; exfalso;
             [discriminate E|contradiction].
        -- intros E. contradiction.
        -- intros E. contradiction.
Qed.

Lemma handles_step (path : string) (c : frame_call) (g : game_t) (w : world)
      (z : Z) (g' : game_t) (w' : world) :
  handles_inv path g w ->
  step env c g w = Some ((z, g'), w') ->
  handles_inv path g' w' /\ geometry_effect path (z = -1) g w g' w'.
Proof.
  intros Hinv H. pose proof (step_valid c g w _ H) as Hv.
  assert (same : forall z0,
             Some ((z0, g), w) = Some ((z, g'), w') ->
             handles_inv path g' w' /\
             geometry_effect path (z = -1) g w g' w').
  { intros z0 E. injection E as _ <- <-.
    apply (handles_quiet path g w w []);
      [exact Hinv|now rewrite app_nil_r|reflexivity|constructor]. }
  destruct (game_state_eqb (state g) GAME_STATE_QUIT) eqn:Eq.
  { apply game_state_eqb_eq in Eq.
    rewrite (step_quit env c g w Eq Hv) in H. exact (same _ H). }
  assert (Hs : state g <> GAME_STATE_QUIT).
  { intros E. apply game_state_eqb_eq in E. congruence. }
  clear Eq.
  assert (Hp : platforms g <> NULL).
  { intros E. apply Hs. now apply Hinv. }
  assert (restate : forall s,
             Some ((0, set_state g s), w) = Some ((z, g'), w') ->
             handles_inv path g' w' /\
             geometry_effect path (z = -1) g w g' w').
  { intros s E. injection E as _ <- <-.
    apply handles_restate; [exact Hinv|]. intros E. contradiction. }
  assert (jump : Some ((0, g), log w (player_jump (player g)) 0)
                 = Some ((z, g'), w') ->
                 handles_inv path g' w' /\
                 geometry_effect path (z = -1) g w g' w').
  { intros E. injection E as _ <- <-.
    apply (handles_quiet path g w _ [(player_jump (player g), 0)]);
      [exact Hinv|reflexivity|reflexivity|now repeat constructor]. }
  assert (quietly : forall (m : M Z),
             quiet m ->
             (r <- m ;; ret (r, g)) w = Some ((z, g'), w') ->
             handles_inv path g' w' /\
             geometry_effect path (z = -1) g w g' w').
  { intros m Hq E.
    destruct (Hq w) as (a & w1 & evs & E1 & Hh & Hm & Hn).
    unfold bind in E. rewrite E1 in E. unfold ret in E.
    injection E as _ <- <-.
    now apply (handles_quiet path g w w1 evs). }
  destruct c as [kb stick | e | dt | rd]; simpl in Hv.
  - apply (quietly (game_input env g kb stick));
      [now apply game_input_quiet|exact H].
  - cbn [step] in H. pose proof H as H0. unfold game_event in H.
    destruct (state g) eqn:Hst.
    + destruct e as [ | sym | button | ]; simpl in H.
      * exact (restate _ H).
      * destruct (Z.eq_dec sym SDLK_q) as [-> | Hq].
        -- exact (handles_reload path g w z g' w' Hinv Hst H0).
        -- assert (Eq : (sym =? SDLK_q) = false) by now apply Z.eqb_neq.
           rewrite Eq in H.
           destruct (sym =? SDLK_SPACE); [exact (jump H)|].
           destruct (sym =? SDLK_p); [exact (restate _ H)|exact (same _ H)].
      * destruct (button =? 1); [exact (jump H)|exact (same _ H)].
      * exact (same _ H).
    + destruct e as [ | sym | button | ]; simpl in H.
      * exact (restate _ H).
      * destruct (sym =? SDLK_p); [exact (restate _ H)|exact (same _ H)].
      * exact (same _ H).
      * exact (same _ H).
    + now contradiction Hs.
    + exact (same _ H).
  - apply (quietly (game_update g dt));
      [now apply game_update_quiet|exact H].
  - apply (quietly (game_render env g rd));
      [now apply game_render_quiet|exact H].
Qed.

Lemma handles_run (path : string) (cs : list frame_call) :
  forall g w zs g' w',
    handles_inv path g w ->
    run env cs g w = Some ((zs, g'), w') ->
    handles_inv path g' w' /\
    geometry_effect path (In (-1) zs) g w g' w'.
Proof.
  induction cs as [|c cs IH]; intros g w zs g' w' Hinv H.
  - simpl in H. unfold ret in H. injection H as <- <- <-.
    split; [exact Hinv|]. exists []. rewrite app_nil_r. simpl. tauto.
  - simpl in H. unfold bind at 1 in H.
    destruct (step env c g w) as [[[z g1] w1]|] eqn:E1; [|discriminate].
    unfold bind in H.
    destruct (run env cs g1 w1) as [[[zs2 g2] w2]|] eqn:E2; [|discriminate].
    unfold ret in H. injection H as <- <- <-.
    destruct (handles_step path c g w z g1 w1 Hinv E1)
      as (Hinv1 & evs1 & Hh1 & A1 & B1 & C1).
    destruct (IH g1 w1 zs2 g2 w2 Hinv1 E2)
      as (Hinv2 & evs2 & Hh2 & A2 & B2 & C2).
    split; [exact Hinv2|]. exists (evs1 ++ evs2).
    split; [rewrite Hh2, Hh1; now rewrite app_assoc|].
    split; [|split].
    + intros HIn. apply in_app_or in HIn. destruct HIn as [HIn | HIn].
      * destruct (A1 HIn) as (N1 & Hz & _).
        assert (N2 : platforms g2 = NULL) by now apply C2.
        split; [exact N2|]. split; [left; now symmetry|].
        now apply Hinv2.
      * destruct (A2 HIn) as (N2 & Hz & Hq).
        split; [exact N2|]. split; [now right|exact Hq].
    + intros N2. destruct (B2 N2) as [N1 | HIn].
      * destruct (B1 N1) as [N0 | HIn]; [now left|].
        right. apply in_or_app. now left.
      * right. apply in_or_app. now right.
    + intros N0. apply C2. now apply C1.
Qed.

End Handles.

(** C9, as the code has it.  After a successful construction, in every state
    that calls of the loop reach, the player, the camera and the path buffer
    are non-null, and the level geometry is non-null unless a reload has
    failed: the handle is null exactly when a load returned null since the
    construction, and then the state is Terminated and the failure was
    reported by a result of -1 (a session ended by [SDL_QUIT] keeps its
    geometry).  With an allocator that hands out fresh addresses, every
    sequence of valid calls returns, and then the path buffer holds the
    construction path, which is the path of the last successful geometry
    load. *)
Theorem session_handles_invariant
        (env : history -> call -> Z) (sizeof_game_t : Z)
        (path : string) (w0 : world) (g : game_t) (w : world) :
  create_game env sizeof_game_t path w0 = Some (Some g, w) ->
  (forall cs zs g' w',
      run env cs g w = Some ((zs, g'), w') ->
      exists evs,
        hist w' = hist w ++ evs /\
        player g' <> NULL /\
        camera g' <> NULL /\
        level_file_path g' <> NULL /\
        (platforms g' = NULL <->
         In (load_platforms_from_file path, NULL) evs) /\
        (platforms g' = NULL ->
         state g' = GAME_STATE_QUIT /\ In (-1) zs)) /\
  (allocator_fresh env ->
   forall cs, Forall valid_call cs ->
     exists zs g' w',
       run env cs g w = Some ((zs, g'), w') /\
       mem w' (level_file_path g') = Some path /\
       last_loaded (hist w') None = Some path).
Proof.
  intros Hc. split.
  - intros cs zs g' w' H.
    destruct (create_game_handles env sizeof_game_t path w0 g w Hc)
      as [Hinv Hp].
    destruct (handles_run env path cs g w zs g' w' Hinv H)
      as ((H1 & H2 & H3 & _) & evs & Hh & A & B & _).
    exists evs. split; [exact Hh|]. split; [exact H1|]. split; [exact H2|].
    split; [exact H3|]. split; [split|].
    + intros N. destruct (B N) as [N0 | HIn]; [contradiction|exact HIn].
    + intros HIn. now apply A.
    + intros N. destruct (B N) as [N0 | HIn]; [contradiction|].
      destruct (A HIn) as (_ & Hz & Hq). now split.
  - intros Hfresh cs Hv.
    destruct (run_inv env Hfresh path cs g w
                      (create_game_inv env sizeof_game_t Hfresh path w0 g w Hc)
                      Hv)
      as (zs & g' & w' & E & _ & _ & _ & _ & _ & _ & H7 & H8 & _).
    now exists zs, g', w'.
Qed.

Lemma session_handles_invariant_witness :
  create_game env_ok 64 "lvl" world0 = Some (Some game0, world1) /\
  allocator_fresh env_ok /\
  Forall valid_call [call_event (SDL_KEYDOWN SDLK_q); call_render 5;
                     call_event SDL_QUIT] /\
  exists zs g' w' evs,
    run env_ok [call_event (SDL_KEYDOWN SDLK_q); call_render 5;
                call_event SDL_QUIT] game0 world1
    = Some ((zs, g'), w') /\
    hist w' = hist world1 ++ evs /\
    player g' <> NULL /\
    camera g' <> NULL /\
    level_file_path g' <> NULL /\
    (platforms g' = NULL <->
     In (load_platforms_from_file "lvl", NULL) evs) /\
    state g' = GAME_STATE_QUIT /\
    platforms g' <> NULL /\
    mem w' (level_file_path g') = Some "lvl"%string /\
    last_loaded (hist w') None = Some "lvl"%string.
Proof.
  assert (Hv : Forall valid_call [call_event (SDL_KEYDOWN SDLK_q);
                                  call_render 5; call_event SDL_QUIT]).
  { repeat constructor; simpl; discriminate. }
  split; [reflexivity|]. split; [exact env_ok_fresh|]. split; [exact Hv|].
  destruct (session_handles_invariant env_ok 64 "lvl" world0 game0 world1
                                      eq_refl) as [HA HB].
  destruct (HB env_ok_fresh _ Hv) as (zs & g' & w' & E & Hm & Hl).
  destruct (HA _ zs g' w' E) as (evs & Hh & H1 & H2 & H3 & Hiff & _).
  exists zs, g', w', evs.
  split; [exact E|]. split; [exact Hh|]. split; [exact H1|].
  split; [exact H2|]. split; [exact H3|]. split; [exact Hiff|].
  pose proof E as E'. vm_compute in E'. injection E' as _ Eg _.
  split; [rewrite <- Eg; reflexivity|].
  split; [rewrite <- Eg; discriminate|]. split; [exact Hm|exact Hl].
Defined.
